(** * WorkTestTask: the DefiLlama chains scraper (src/main.py)

    A shallow embedding of [extract_data_from_row], [scrape_data], the
    persistence part of [main] and [load_config], followed by the
    properties of the scrape loop, the row extractor, the result file and
    the configuration loader.

    The browser is the environment.  What it shows is an input of the
    model: for every pass of the [while True] loop, the rows the locator
    finds and the page metrics after the wheel event of that pass. *)

From Stdlib Require Import ZArith NArith String Ascii List Lia Bool.
From stdpp Require Import base decidable option list gmap.
Import ListNotations.
Local Open Scope Z_scope.

(** ** Python strings *)

(** A Python [str] is a sequence of Unicode code points. *)
Definition pystr : Type := list N.

(** A literal of the source, read character by character. *)
Definition lit (s : string) : pystr :=
  map N_of_ascii (list_ascii_of_string s).

(** The placeholder the source writes for a field it cannot read. *)
Definition NA : pystr := lit "N/A".

(** [str.isspace] on one code point: the characters [str.strip()]
    removes when it is called without an argument. *)
Definition isspace (c : N) : bool :=
  (((9 <=? c) && (c <=? 13)) || ((28 <=? c) && (c <=? 32))
   || (c =? 133) || (c =? 160) || (c =? 5760)
   || ((8192 <=? c) && (c <=? 8202))
   || (c =? 8232) || (c =? 8233) || (c =? 8239) || (c =? 8287)
   || (c =? 12288))%N.

Fixpoint lstrip (s : pystr) : pystr :=
  match s with
  | c :: s' => if isspace c then lstrip s' else s
  | [] => []
  end.

Definition rstrip (s : pystr) : pystr := rev (lstrip (rev s)).

Definition strip (s : pystr) : pystr := rstrip (lstrip s).

(** ** Exceptions *)

(** A call either returns a value or raises. *)
Inductive outcome (A : Type) : Type :=
| Returns (a : A)
| Raises.
Arguments Returns {A} a.
Arguments Raises {A}.

Definition bind {A B : Type} (m : outcome A) (k : A -> outcome B) : outcome B :=
  match m with
  | Returns a => k a
  | Raises => Raises
  end.

Notation "'let!' x ':=' m 'in' k" := (bind m (fun x => k))
  (at level 10, x name, m at level 100, k at level 200).

(** ** extract_data_from_row (lines 5-26) *)

(** A Playwright locator for one sub-element of a row, as far as the
    source uses it.  [is_visible] is false for an element that is absent
    or hidden; [text_content] is [None] when the node has no text. *)
Record Locator : Type := {
  is_visible : outcome bool;
  text_content : outcome (option pystr)
}.

(** A rendered row: the number of links matching [a[href*='/chain/']]
    and the three cells the extractor looks at. *)
Record RowLocator : Type := {
  chain_links : nat;
  name_element : Locator;       (* div:nth-child(1) a *)
  protocols_element : Locator;  (* div:nth-child(2) *)
  tvl_element : Locator         (* div:nth-child(7) *)
}.

(** The dictionary the extractor returns: three fixed keys. *)
Record chain_data : Type := {
  Name : pystr;
  Protocols : pystr;
  TVL : pystr
}.

(** [await e.text_content() if await e.is_visible() else "N/A"]: the
    condition is evaluated first, the text is read only when it holds. *)
Definition text_or_NA (e : Locator) : outcome (option pystr) :=
  let! visible := is_visible e in
  if visible then text_content e else Returns (Some NA).

(** [x.strip()]: raises AttributeError on [None]. *)
Definition strip_method (x : option pystr) : outcome pystr :=
  match x with
  | Some s => Returns (strip s)
  | None => Raises
  end.

(** The body of the [try] block. *)
Definition extract_try (row_locator : RowLocator) : outcome chain_data :=
  let! name := text_or_NA (name_element row_locator) in
  let! name := strip_method name in
  let! protocols := text_or_NA (protocols_element row_locator) in
  let! protocols := strip_method protocols in
  let! tvl := text_or_NA (tvl_element row_locator) in
  let! tvl := strip_method tvl in
  Returns {| Name := name; Protocols := protocols; TVL := tvl |}.

(** [except Exception]: the error is logged and the function returns
    [None]. *)
Definition extract_data_from_row (row_locator : RowLocator) : option chain_data :=
  match extract_try row_locator with
  | Returns d => Some d
  | Raises => None
  end.

(** ** JSON values and Python dictionaries *)

(** What [json.load] yields and [json.dump] accepts.  A float is kept as
    its literal: the program never computes with one. *)
#[warnings="-register-all"] Inductive json : Type :=
| JNull
| JBool (b : bool)
| JInt (n : Z)
| JFloat (literal : pystr)
| JStr (s : pystr)
| JList (items : list json)
| JObj (members : list (pystr * json)).

(** A [dict] with string keys, in insertion order, one entry per key. *)
Definition pydict : Type := list (pystr * json).

Fixpoint dict_get (d : pydict) (k : pystr) : option json :=
  match d with
  | [] => None
  | (k', v) :: d' => if decide (k' = k) then Some v else dict_get d' k
  end.

(** [d[k] = v]: an existing key keeps its place, a new one goes last. *)
Fixpoint dict_set (d : pydict) (k : pystr) (v : json) : pydict :=
  match d with
  | [] => [(k, v)]
  | (k', v') :: d' =>
      if decide (k' = k) then (k, v) :: d' else (k', v') :: dict_set d' k v
  end.

(** [d.update(other)]: the entries of [other] are stored one by one. *)
Definition dict_update (d other : pydict) : pydict :=
  fold_left (fun acc kv => dict_set acc (fst kv) (snd kv)) other d.

(** [json.load] on a parsed document: the members of every object are
    stored into a fresh dict one by one, so a repeated key keeps its last
    value. *)
Fixpoint json_load (document : json) : json :=
  match document with
  | JList items => JList (map json_load items)
  | JObj members =>
      JObj (dict_update []
              (map (fun kv => match kv with (k, v) => (k, json_load v) end)
                 members))
  | _ => document
  end.

Definition isinstance_list (v : json) : bool :=
  match v with JList _ => true | _ => false end.

Definition chain_data_json (d : chain_data) : json :=
  JObj [(lit "Name", JStr (Name d));
        (lit "Protocols", JStr (Protocols d));
        (lit "TVL", JStr (TVL d))].

(** ** The run's time stamp (line 44) *)

Record datetime : Type := {
  year : Z; month : Z; day : Z; hour : Z; minute : Z; second : Z
}.

Definition digit (d : Z) : N := Z.to_N (48 + d mod 10).

Definition two_digits (n : Z) : pystr := [digit (n / 10); digit n].

Definition four_digits (n : Z) : pystr :=
  [digit (n / 1000); digit (n / 100); digit (n / 10); digit n].

(** [strftime("%Y-%m-%d %H:%M:%S")], for a year of four digits (below
    1000 the padding of [%Y] depends on the C library). *)
Definition strftime (t : datetime) : pystr :=
  four_digits (year t) ++ lit "-" ++ two_digits (month t) ++ lit "-"
  ++ two_digits (day t) ++ lit " " ++ two_digits (hour t) ++ lit ":"
  ++ two_digits (minute t) ++ lit ":" ++ two_digits (second t).

(** ** scrape_data (lines 29-77) *)

(** What the page reports when the source evaluates [window.scrollY],
    [document.body.scrollHeight] and [window.innerHeight]; whole CSS
    pixels. *)
Record PageMetrics : Type := {
  scrollY : Z;
  scrollHeight : Z;
  innerHeight : Z
}.

(** One pass of the [while True] loop, as the browser answers it: the
    rows matched at line 50 and the state of the page once the wheel
    event of line 64 has been handled. *)
Record Pass : Type := {
  visible_rows : list RowLocator;
  after_wheel : PageMetrics
}.

(** The local variables of [scrape_data] the loop reads or writes.
    [wheels] is not in the source: it counts the calls of line 64. *)
Record Locals : Type := {
  page_height : Z;
  window_height : Z;
  data_list : list chain_data;
  unique_names : gset pystr;
  attempt : Z;
  wheels : nat
}.

(** Lines 58-62, for a row the extractor was called on.  A dict with
    three keys is truthy, so [if chain_data] only excludes [None]. *)
Definition offer (st : Locals) (extracted : option chain_data) : Locals :=
  match extracted with
  | Some d =>
      if decide (Name d <> NA) then
        if decide (Name d ∉ unique_names st) then
          {| page_height := page_height st;
             window_height := window_height st;
             data_list := data_list st ++ [d];
             unique_names := {[ Name d ]} ∪ unique_names st;
             attempt := attempt st;
             wheels := wheels st |}
        else st
      else st
  | None => st
  end.

(** Lines 54-62: the body of the [for] loop. *)
Definition visit_row (st : Locals) (row_locator : RowLocator) : Locals :=
  if (0 <? chain_links row_locator)%nat
  then offer st (extract_data_from_row row_locator)
  else st.

(** Line 64. *)
Definition wheel (st : Locals) : Locals :=
  {| page_height := page_height st;
     window_height := window_height st;
     data_list := data_list st;
     unique_names := unique_names st;
     attempt := attempt st;
     wheels := S (wheels st) |}.

(** Line 73: [attempt -= 1]. *)
Definition decrement (st : Locals) : Locals :=
  {| page_height := page_height st;
     window_height := window_height st;
     data_list := data_list st;
     unique_names := unique_names st;
     attempt := attempt st - 1;
     wheels := wheels st |}.

(** The test of line 68 on a reading of [window.scrollY]. *)
Definition reached_end (st : Locals) (current_scroll_position : Z) : bool :=
  page_height st <=? current_scroll_position + window_height st.

(** How one pass ends. *)
Inductive flow : Type :=
| Continue (st : Locals)
| Break (st : Locals).

(** Lines 50-73: one pass of the loop. *)
Definition loop_body (st : Locals) (p : Pass) : flow :=
  let st := fold_left visit_row (visible_rows p) st in
  let st := wheel st in
  let current_scroll_position := scrollY (after_wheel p) in
  if reached_end st current_scroll_position then
    if attempt st <=? 0 then Break st else Continue (decrement st)
  else Continue st.

(** The loop over the passes the browser answers.  [None]: the loop has
    not left by [break] when the passes end, the run is still going. *)
Fixpoint scrape_loop (st : Locals) (passes : list Pass) : option Locals :=
  match passes with
  | [] => None
  | p :: rest =>
      match loop_body st p with
      | Break st' => Some st'
      | Continue st' => scrape_loop st' rest
      end
  end.

(** Lines 39-47: the variables as the loop finds them.  [page0] is the
    page when lines 39 and 40 are evaluated. *)
Definition init_locals (page0 : PageMetrics) : Locals :=
  {| page_height := scrollHeight page0;
     window_height := innerHeight page0;
     data_list := [];
     unique_names := ∅;
     attempt := 3;
     wheels := 0 |}.

(** Line 44: the key of the result. *)
Definition date_label (now : datetime) : pystr :=
  lit "Scraping at" ++ strftime now.

(** Lines 45 and 77: [{date: {"data_list": [...]}}]. *)
Definition scraped_data (date : pystr) (rows : list chain_data) : pydict :=
  [(date, JObj [(lit "data_list", JList (map chain_data_json rows))])].

Definition scrape_data (now : datetime) (page0 : PageMetrics)
    (passes : list Pass) : option pydict :=
  match scrape_loop (init_locals page0) passes with
  | Some st => Some (scraped_data (date_label now) (data_list st))
  | None => None
  end.

(** ** main: the result file (lines 89-121) *)

(** What reading [output/result.json] does when the file exists. *)
Inductive file_read : Type :=
| Loaded (existing_data : json)
| JSONDecodeError
| OtherReadError.

(** Lines 95-112: the list handed to [json.dump].  [output] is [None]
    when [os.path.exists] is false. *)
Definition main_results (output : option file_read) (scraped_result : pydict)
    : list json :=
  let all_results :=
    match output with
    | Some (Loaded existing_data) =>
        match existing_data with
        | JList items => items
        | _ => [existing_data]
        end
    | Some JSONDecodeError => []
    | Some OtherReadError => []
    | None => []
    end in
  all_results ++ [JObj scraped_result].

(** [main] up to the write of line 116: the document written to the
    file, [None] when [scrape_data] has not returned a result. *)
Definition main (now : datetime) (page0 : PageMetrics) (passes : list Pass)
    (output : option file_read) : option json :=
  match scrape_data now page0 passes with
  | Some scraped_result => Some (JList (main_results output scraped_result))
  | None => None
  end.

(** ** load_config (lines 124-153) *)

(** [config.json] as the loader meets it.  [Undecodable]: opening or
    decoding the file raises.  [Object members]: the file holds a JSON
    object with these members, the shape the program documents; a file
    holding another JSON value is outside this model. *)
Inductive config_file : Type :=
| Missing
| Undecodable
| Object (members : list (pystr * json)).

(** Line 140 on a file that holds an object. *)
Definition loaded (members : list (pystr * json)) : pydict :=
  match json_load (JObj members) with
  | JObj d => d
  | _ => []
  end.

Definition default_config : pydict :=
  [(lit "interval_minutes", JInt 5);
   (lit "proxy_settings",
    JObj [(lit "enabled", JBool false);
          (lit "server", JStr (lit ""));
          (lit "username", JStr (lit ""));
          (lit "password", JStr (lit ""))])].

(** [config["proxy_settings"].update(other)] (line 143): the value under
    the key is fetched from [config] as it is at that moment and updated
    in place.  A missing key raises KeyError, a value that is no dict
    AttributeError. *)
Definition update_proxy_settings (config other : pydict) : outcome pydict :=
  match dict_get config (lit "proxy_settings") with
  | Some (JObj target) =>
      Returns (dict_set config (lit "proxy_settings")
                 (JObj (dict_update target other)))
  | _ => Raises
  end.

(** Lines 136-153.  In the [Missing] branch [os.makedirs] is called on
    the empty directory name of ["config.json"] and raises; the handler
    of line 151 logs and the defaults are returned.  Every exception
    ends in [return config]. *)
Definition load_config (f : config_file) : pydict :=
  let config := default_config in
  match f with
  | Object members =>
      let loaded_config := loaded members in
      let config := dict_update config loaded_config in
      match dict_get loaded_config (lit "proxy_settings") with
      | Some (JObj proxy) =>
          match update_proxy_settings config proxy with
          | Returns config' => config'
          | Raises => config
          end
      | _ => config
      end
  | Undecodable => config
  | Missing => config
  end.

(** ** Vocabulary of the properties *)

(** The name line 59 looks up for a row, if the row gets that far: it
    has a chain link, the extractor returned a dict and its Name is not
    the placeholder. *)
Definition offered_name (row_locator : RowLocator) : list pystr :=
  if (0 <? chain_links row_locator)%nat then
    match extract_data_from_row row_locator with
    | Some d => if decide (Name d <> NA) then [Name d] else []
    | None => []
    end
  else [].

Definition pass_names (p : Pass) : list pystr :=
  flat_map offered_name (visible_rows p).

(** A list of names with every name kept at the place of its first
    occurrence and dropped everywhere after. *)
Fixpoint first_occurrences (names : list pystr) : list pystr :=
  match names with
  | [] => []
  | n :: rest => n :: filter (fun m => m <> n) (first_occurrences rest)
  end.

(** The variables at the start of every pass that is run and, last, as
    the loop leaves them (by [break], or when the passes end). *)
Fixpoint trajectory (st : Locals) (passes : list Pass) : list Locals :=
  st :: match passes with
        | [] => []
        | p :: rest =>
            match loop_body st p with
            | Break st' => [st']
            | Continue st' => trajectory st' rest
            end
        end.

Definition attempts (page0 : PageMetrics) (passes : list Pass) : list Z :=
  map attempt (trajectory (init_locals page0) passes).

(** The test of line 68 as the run started from [page0] makes it on the
    reading of pass [p]. *)
Definition end_reading (page0 : PageMetrics) (p : Pass) : bool :=
  reached_end (init_locals page0) (scrollY (after_wheel p)).

Fixpoint end_readings (page0 : PageMetrics) (passes : list Pass) : nat :=
  match passes with
  | [] => 0
  | p :: rest =>
      ((if end_reading page0 p then 1 else 0) + end_readings page0 rest)%nat
  end.

(** The loop leaves after [extra] wheel events beyond the one whose
    reading first met the end test; [scanning] are the passes before
    that one. *)
Definition stops_after (extra : nat) (page0 : PageMetrics)
    (scanning at_end : list Pass) : Prop :=
  exists st,
    scrape_loop (init_locals page0) (scanning ++ at_end) = Some st
    /\ wheels st = (length scanning + 1 + extra)%nat.

(** Pass [i] read the end of the page and, by the next reading, the
    document is taller by a viewport or more. *)
Definition grows_after_bottom (page0 : PageMetrics) (passes : list Pass)
    (i : nat) : Prop :=
  exists p q,
    passes !! i = Some p /\ passes !! S i = Some q
    /\ end_reading page0 p = true
    /\ scrollHeight (after_wheel p) + innerHeight (after_wheel p)
       <= scrollHeight (after_wheel q).

(** The policy of a budget that is given back: after such a growth the
    counter stops going down, and it is 3 again when a later pass next
    reads the end of the page. *)
Definition budget_given_back (page0 : PageMetrics) (passes : list Pass) : Prop :=
  forall i, grows_after_bottom page0 passes i ->
    (exists a, attempts page0 passes !! S i = Some a
               /\ attempts page0 passes !! S (S i) = Some a)
    /\ (forall j p, (S i < j)%nat -> passes !! j = Some p ->
          end_reading page0 p = true ->
          (forall k q, (S i < k < j)%nat -> passes !! k = Some q ->
                       end_reading page0 q = false) ->
          attempts page0 passes !! j = Some 3).

(** A pass that differs from [p] only in the heights the page would
    report after the wheel event. *)
Definition with_heights (doc_height view_height : Z) (p : Pass) : Pass :=
  {| visible_rows := visible_rows p;
     after_wheel := {| scrollY := scrollY (after_wheel p);
                       scrollHeight := doc_height;
                       innerHeight := view_height |} |}.

(** Two passes in which the loop meets the same rows and reads the same
    scroll position; the heights of document and window may differ. *)
Definition same_readings (p q : Pass) : Prop :=
  visible_rows p = visible_rows q
  /\ scrollY (after_wheel p) = scrollY (after_wheel q).

(** [config["proxy_settings"][key]], when both keys are there. *)
Definition proxy_setting (config : pydict) (key : pystr) : option json :=
  match dict_get config (lit "proxy_settings") with
  | Some (JObj proxy) => dict_get proxy key
  | _ => None
  end.

(** [t] is [text] without its leading and trailing white space. *)
Definition trimmed_of (text t : pystr) : Prop :=
  exists l r,
    text = l ++ t ++ r
    /\ Forall (fun c => isspace c = true) l
    /\ Forall (fun c => isspace c = true) r
    /\ (forall c, head t = Some c -> isspace c = false)
    /\ (forall c, last t = Some c -> isspace c = false).



Definition valid_datetime (t : datetime) : Prop :=
  1000 <= year t <= 9999 /\ 1 <= month t <= 12 /\ 1 <= day t <= 31
  /\ 0 <= hour t <= 23 /\ 0 <= minute t <= 59 /\ 0 <= second t <= 59.

(** [st'] has the variables of [st] that the [for] loop does not
    assign. *)
Definition same_control (st st' : Locals) : Prop :=
  page_height st' = page_height st /\ window_height st' = window_height st
  /\ attempt st' = attempt st /\ wheels st' = wheels st.

(** [st] holds the heights that lines 39 and 40 read from [page0]. *)
Definition started_from (page0 : PageMetrics) (st : Locals) : Prop :=
  page_height st = scrollHeight page0 /\ window_height st = innerHeight page0.

(** The accumulator of [st] is what offering the names [offered], in
    this order, to an empty accumulator gives. *)
Definition tracks (st : Locals) (offered : list pystr) : Prop :=
  map Name (data_list st) = first_occurrences offered
  /\ (forall n, n ∈ unique_names st <-> n ∈ offered).

(** ** Sample rows and pages *)

Definition shown (text : string) : Locator :=
  {| is_visible := Returns true; text_content := Returns (Some (lit text)) |}.

Definition hidden : Locator :=
  {| is_visible := Returns false; text_content := Raises |}.

Definition chain_row (name protocols tvl : string) : RowLocator :=
  {| chain_links := 1;
     name_element := shown name;
     protocols_element := shown protocols;
     tvl_element := shown tvl |}.

(** A chain row whose seventh cell is not rendered. *)
Definition row_without_tvl : RowLocator :=
  {| chain_links := 1;
     name_element := shown "  Ethereum ";
     protocols_element := shown " 1543";
     tvl_element := hidden |}.

Definition at_scroll (rows : list RowLocator) (y : Z) (doc_height : Z) : Pass :=
  {| visible_rows := rows;
     after_wheel := {| scrollY := y; scrollHeight := doc_height;
                       innerHeight := 600 |} |}.

(** A page 1700 pixels tall in a window of 600. *)
Definition sample_page : PageMetrics :=
  {| scrollY := 0; scrollHeight := 1700; innerHeight := 600 |}.

(** Three chains over two scroll positions, the first one rendered at
    both; the page never gets taller.  The first reading is short of
    the end of the page. *)
Definition sample_scanning : list Pass :=
  [ at_scroll [chain_row "A" "10" "$1b"; chain_row "B" "7" "$2b"] 800 1700 ].

(** From the second reading on the viewport is at the bottom and stays
    there. *)
Definition sample_at_end : list Pass :=
  [ at_scroll [chain_row "A" "10" "$1b"; chain_row "C" "3" "$3b"] 1100 1700;
    at_scroll [chain_row "C" "3" "$3b"] 1100 1700;
    at_scroll [chain_row "C" "3" "$3b"] 1100 1700;
    at_scroll [chain_row "C" "3" "$3b"] 1100 1700;
    at_scroll [chain_row "C" "3" "$3b"] 1100 1700;
    at_scroll [chain_row "C" "3" "$3b"] 1100 1700 ].

Definition sample_passes : list Pass := sample_scanning ++ sample_at_end.

(** What the extractor returns for [chain_row name protocols tvl]. *)
Definition extracted (name protocols tvl : string) : chain_data :=
  {| Name := lit name; Protocols := lit protocols; TVL := lit tvl |}.

Definition sample_rows : list chain_data :=
  [extracted "A" "10" "$1b"; extracted "B" "7" "$2b"; extracted "C" "3" "$3b"].

(** The variables when the run over [sample_passes] leaves the loop. *)
Definition sample_final : Locals :=
  {| page_height := 1700;
     window_height := 600;
     data_list := sample_rows;
     unique_names := {[ lit "A"; lit "B"; lit "C" ]};
     attempt := 0;
     wheels := 5 |}.

Definition sample_now : datetime :=
  {| year := 2025; month := 6; day := 9; hour := 14; minute := 5; second := 0 |}.

(** A page 1000 pixels tall that is at its end after the first wheel
    event and then grows to 2000 pixels. *)
Definition growing_page : PageMetrics :=
  {| scrollY := 0; scrollHeight := 1000; innerHeight := 600 |}.

Definition growing_passes : list Pass :=
  [ at_scroll [] 400 1000;
    at_scroll [] 900 2000;
    at_scroll [] 1400 2000;
    at_scroll [] 1400 2000;
    at_scroll [] 1400 2000 ].

(** The same rows and scroll positions on a page that is 3000 pixels
    tall from the first pass on. *)
Definition taller_passes : list Pass :=
  [ at_scroll [] 400 3000;
    at_scroll [] 900 3000;
    at_scroll [] 1400 3000;
    at_scroll [] 1400 3000;
    at_scroll [] 1400 3000 ].

(** A row whose Name cell is visible but gives no text. *)
Definition row_without_text : RowLocator :=
  {| chain_links := 1;
     name_element := {| is_visible := Returns true;
                        text_content := Returns None |};
     protocols_element := shown "12";
     tvl_element := shown "$5b" |}.

(** A row of the table that links to no chain page. *)
Definition header_row : RowLocator :=
  {| chain_links := 0;
     name_element := shown "Name";
     protocols_element := shown "Protocols";
     tvl_element := shown "TVL" |}.

(** [{"proxy_settings": {"enabled": true}}]. *)
Definition only_enabled : list (pystr * json) :=
  [(lit "proxy_settings", JObj [(lit "enabled", JBool true)])].

(** ** Vocabulary of the further properties *)

(** Reading the cell raises inside the [try] block: [is_visible]
    raises, or the cell is visible and [text_content] raises or gives
    [None] (on which [strip] raises). *)
Definition cell_fails (e : Locator) : bool :=
  match is_visible e with
  | Raises => true
  | Returns false => false
  | Returns true =>
      match text_content e with
      | Returns (Some _) => false
      | _ => true
      end
  end.

(** [field] is what lines 8-9 (12-13, 16-17) compute for the cell [e]
    when nothing raises: ["N/A"] for a cell that is not visible, the
    stripped text of a visible one. *)
Definition cell_reads (e : Locator) (field : pystr) : Prop :=
  (is_visible e = Returns false /\ field = NA)
  \/ (exists text, is_visible e = Returns true
                   /\ text_content e = Returns (Some text)
                   /\ field = strip text).

(** No white space at either end. *)
Definition no_outer_space (s : pystr) : Prop :=
  (forall c, head s = Some c -> isspace c = false)
  /\ (forall c, last s = Some c -> isspace c = false).

(** The dict line 59 looks up for a row, if the row gets that far. *)
Definition offered_row (row_locator : RowLocator) : list chain_data :=
  if (0 <? chain_links row_locator)%nat then
    match extract_data_from_row row_locator with
    | Some d => if decide (Name d <> NA) then [d] else []
    | None => []
    end
  else [].

Definition pass_rows (p : Pass) : list chain_data :=
  flat_map offered_row (visible_rows p).

(** A list of rows with, for every Name, the first row that carries it
    kept at its place and the later ones dropped. *)
Fixpoint first_rows (rows : list chain_data) : list chain_data :=
  match rows with
  | [] => []
  | d :: rest => d :: filter (fun e => Name e <> Name d) (first_rows rest)
  end.

(** What holds of the accumulator at every moment of a run. *)
Definition accumulator_ok (st : Locals) : Prop :=
  NoDup (map Name (data_list st))
  /\ (NA ∉ map Name (data_list st))
  /\ (forall n, n ∈ unique_names st <-> n ∈ map Name (data_list st)).

(** [st'] has collected what [st] had, in the same places, and maybe
    more. *)
Definition extends (st st' : Locals) : Prop :=
  data_list st `prefix_of` data_list st'
  /\ unique_names st ⊆ unique_names st'.

(** The result file as the next run finds it, when the write of line
    116 has succeeded: reading it back gives the list that was dumped. *)
Definition file_after_run (output : option file_read) (scraped_result : pydict)
    : option file_read :=
  Some (Loaded (JList (main_results output scraped_result))).

Definition file_after_runs (output : option file_read)
    (scraped_results : list pydict) : option file_read :=
  fold_left file_after_run scraped_results output.

(** Line 158 of [main_scheduler]: [config.get("interval_minutes", 5)]
    on the configuration [load_config] returns. *)
Definition scheduler_interval (f : config_file) : json :=
  match dict_get (load_config f) (lit "interval_minutes") with
  | Some interval => interval
  | None => JInt 5
  end.

(** Readings on a page 1000 pixels tall whose table is laid out anew
    while it scrolls: the viewport is at the end after the first wheel
    event, twice falls back short of it, and reaches it again. *)
Definition uneven_passes : list Pass :=
  [ at_scroll [chain_row "A" "10" "$1b"] 400 1000;
    at_scroll [chain_row "B" "7" "$2b"] 300 1000;
    at_scroll [chain_row "A" "11" "$9b"] 400 1000;
    at_scroll [header_row] 350 1000;
    at_scroll [chain_row "C" "3" "$3b"] 400 1000;
    at_scroll [chain_row "D" "1" "$4b"] 400 1000;
    at_scroll [chain_row "E" "1" "$5b"] 400 1000 ].

(** The variables when the run over [uneven_passes] leaves the loop. *)
Definition uneven_final : Locals :=
  {| page_height := 1000;
     window_height := 600;
     data_list := [extracted "A" "10" "$1b"; extracted "B" "7" "$2b";
                   extracted "C" "3" "$3b"; extracted "D" "1" "$4b"];
     unique_names := {[ lit "A"; lit "B"; lit "C"; lit "D" ]};
     attempt := 0;
     wheels := 6 |}.

(** [{"interval_minutes": "soon", "interval_minutes": -2,
      "proxy_settings": "off"}]. *)
Definition odd_config : list (pystr * json) :=
  [(lit "interval_minutes", JStr (lit "soon"));
   (lit "interval_minutes", JInt (-2));
   (lit "proxy_settings", JStr (lit "off"))].

(** * Properties *)

(** ** The model on the sample inputs *)

Example strip_inner_space :
  strip (lit "  Binance  Smart Chain ") = lit "Binance  Smart Chain".
Proof. reflexivity. Qed.

Example extract_row_without_text :
  extract_data_from_row row_without_text = None.
Proof. reflexivity. Qed.

Example extract_hidden_name :
  extract_data_from_row
    {| chain_links := 1; name_element := hidden;
       protocols_element := shown "12"; tvl_element := shown "$5b" |}
  = Some (extracted "N/A" "12" "$5b").
Proof. reflexivity. Qed.

Example header_row_is_skipped (st : Locals) : visit_row st header_row = st.
Proof. reflexivity. Qed.

Example sample_run :
  scrape_loop (init_locals sample_page) sample_passes = Some sample_final.
Proof. vm_compute. reflexivity. Qed.

Example growing_run :
  attempts growing_page growing_passes = [3; 2; 1; 0; 0].
Proof. reflexivity. Qed.

Example main_appends_to_list :
  main_results (Some (Loaded (JList [JNull; JNull]))) [] = [JNull; JNull; JObj []].
Proof. reflexivity. Qed.

Example main_starts_afresh :
  main_results None [] = [JObj []]
  /\ main_results (Some JSONDecodeError) [] = [JObj []].
Proof. split; reflexivity. Qed.

(** ** Trimming *)

Lemma lstrip_split (s : pystr) :
  exists l, s = l ++ lstrip s /\ Forall (fun c => isspace c = true) l.
Proof.
  induction s as [|c s [l [Hs Hl]]]; simpl.
  - exists []. split; [reflexivity | constructor].
  - destruct (isspace c) eqn:Hc.
    + exists (c :: l). split; [simpl; congruence | constructor; assumption].
    + exists []. split; [reflexivity | constructor].
Qed.

Lemma lstrip_head (s : pystr) (c : N) :
  head (lstrip s) = Some c -> isspace c = false.
Proof.
  induction s as [|a s IH]; simpl; [discriminate|].
  destruct (isspace a) eqn:Ha; [exact IH|].
  simpl. intros [= <-]. exact Ha.
Qed.

Lemma strip_trimmed (text : pystr) : trimmed_of text (strip text).
Proof.
  unfold trimmed_of, strip, rstrip.
  destruct (lstrip_split text) as [l [Hl Hls]].
  destruct (lstrip_split (rev (lstrip text))) as [r [Hr Hrs]].
  set (u := lstrip text) in *.
  set (core := lstrip (rev u)) in *.
  assert (Hu : u = rev core ++ rev r).
  { rewrite <- rev_app_distr, <- Hr. symmetry. apply rev_involutive. }
  exists l, (rev r). repeat split.
  - rewrite <- Hu. exact Hl.
  - exact Hls.
  - apply List.Forall_rev. exact Hrs.
  - intros c Hc. apply (lstrip_head text). fold u. rewrite Hu.
    destruct (rev core) as [|a t]; [discriminate|]. exact Hc.
  - intros c Hc. apply (lstrip_head (rev u)). fold core.
    rewrite <- (rev_involutive core).
    destruct (rev core) as [|a t] using rev_ind; [discriminate|].
    rewrite last_snoc in Hc. rewrite rev_app_distr. simpl. exact Hc.
Qed.

Lemma strip_NA : strip NA = NA.
Proof. reflexivity. Qed.

(** ** The row extractor *)

Lemma text_or_NA_visible (e : Locator) (text : pystr) :
  is_visible e = Returns true -> text_content e = Returns (Some text) ->
  text_or_NA e = Returns (Some text).
Proof. unfold text_or_NA. intros -> ->. reflexivity. Qed.

Lemma text_or_NA_hidden (e : Locator) :
  is_visible e = Returns false -> text_or_NA e = Returns (Some NA).
Proof. unfold text_or_NA. intros ->. reflexivity. Qed.

(** C6. A row whose Name and Protocols cells are visible and give their
    text, and whose TVL cell is absent or not visible, is extracted to
    the dict with the two texts trimmed and ["N/A"] under TVL; the
    extractor does not return [None] for it. *)
Theorem extract_row_without_tvl (row_locator : RowLocator) (name protocols : pystr) :
  is_visible (name_element row_locator) = Returns true ->
  text_content (name_element row_locator) = Returns (Some name) ->
  is_visible (protocols_element row_locator) = Returns true ->
  text_content (protocols_element row_locator) = Returns (Some protocols) ->
  is_visible (tvl_element row_locator) = Returns false ->
  extract_data_from_row row_locator
    = Some {| Name := strip name; Protocols := strip protocols; TVL := NA |}
  /\ trimmed_of name (strip name)
  /\ trimmed_of protocols (strip protocols).
Proof.
  intros Hn Hnt Hp Hpt Ht.
  split; [|split; apply strip_trimmed].
  unfold extract_data_from_row, extract_try.
  rewrite (text_or_NA_visible _ _ Hn Hnt), (text_or_NA_visible _ _ Hp Hpt),
    (text_or_NA_hidden _ Ht).
  reflexivity.
Qed.

Lemma extract_row_without_tvl_witness :
  extract_data_from_row row_without_tvl
    = Some {| Name := lit "Ethereum"; Protocols := lit "1543"; TVL := lit "N/A" |}
  /\ trimmed_of (lit "  Ethereum ") (lit "Ethereum")
  /\ trimmed_of (lit " 1543") (lit "1543").
Proof.
  exact (extract_row_without_tvl row_without_tvl (lit "  Ethereum ") (lit " 1543")
           eq_refl eq_refl eq_refl eq_refl eq_refl).
Defined.

(** ** The accumulator: first occurrences *)

Lemma elem_of_first_occurrences (names : list pystr) (n : pystr) :
  n ∈ first_occurrences names <-> n ∈ names.
Proof.
  induction names as [|m names IH]; simpl; [reflexivity|].
  rewrite !elem_of_cons, list_elem_of_filter, IH.
  destruct (decide (n = m)); tauto.
Qed.

Lemma NoDup_first_occurrences (names : list pystr) :
  NoDup (first_occurrences names).
Proof.
  induction names as [|m names IH]; simpl; [constructor|].
  apply NoDup_cons. split.
  - rewrite list_elem_of_filter. tauto.
  - apply NoDup_filter, IH.
Qed.

Lemma first_occurrences_snoc_new (names : list pystr) (n : pystr) :
  n ∉ names -> first_occurrences (names ++ [n]) = first_occurrences names ++ [n].
Proof.
  induction names as [|m names IH]; simpl; intros Hin; [reflexivity|].
  rewrite not_elem_of_cons in Hin. destruct Hin as [Hm Hn].
  rewrite (IH Hn), filter_app, filter_cons_True by assumption.
  reflexivity.
Qed.

Lemma first_occurrences_snoc_old (names : list pystr) (n : pystr) :
  n ∈ names -> first_occurrences (names ++ [n]) = first_occurrences names.
Proof.
  induction names as [|m names IH]; simpl; intros Hin.
  - apply elem_of_nil in Hin. contradiction.
  - f_equal. destruct (decide (n ∈ names)) as [Hn|Hn].
    + rewrite IH by assumption. reflexivity.
    + apply elem_of_cons in Hin as [->|Hin]; [|contradiction].
      rewrite (first_occurrences_snoc_new _ _ Hn), filter_app.
      rewrite filter_cons_False by tauto.
      apply app_nil_r.
Qed.

(** ** What the [for] loop leaves alone *)

Lemma offer_control (st : Locals) (e : option chain_data) :
  same_control st (offer st e).
Proof.
  unfold offer, same_control.
  destruct e as [d|]; [|tauto].
  destruct (decide (Name d <> NA)); [|tauto].
  destruct (decide (Name d ∉ unique_names st)); simpl; tauto.
Qed.

Lemma visit_row_control (st : Locals) (row_locator : RowLocator) :
  same_control st (visit_row st row_locator).
Proof.
  unfold visit_row. destruct (0 <? chain_links row_locator)%nat.
  - apply offer_control.
  - unfold same_control. tauto.
Qed.

Lemma visit_rows_control (rows : list RowLocator) (st : Locals) :
  same_control st (fold_left visit_row rows st).
Proof.
  revert st. induction rows as [|r rows IH]; intros st; simpl.
  - unfold same_control. tauto.
  - destruct (visit_row_control st r) as (H1 & H2 & H3 & H4).
    destruct (IH (visit_row st r)) as (I1 & I2 & I3 & I4).
    unfold same_control. repeat split; congruence.
Qed.

(** The two ways a pass can end, with what each does to the variables
    that steer the loop. *)
Lemma loop_body_cases (st : Locals) (p : Pass) :
  let seen := fold_left visit_row (visible_rows p) st in
  if reached_end st (scrollY (after_wheel p)) then
    if attempt st <=? 0 then loop_body st p = Break (wheel seen)
    else loop_body st p = Continue (decrement (wheel seen))
  else loop_body st p = Continue (wheel seen).
Proof.
  intros seen. unfold loop_body. fold seen.
  destruct (visit_rows_control (visible_rows p) st) as (H1 & H2 & H3 & H4).
  fold seen in H1, H2, H3, H4.
  unfold reached_end. simpl. rewrite H1, H2, H3.
  destruct (page_height st <=? scrollY (after_wheel p) + window_height st);
    [destruct (attempt st <=? 0)|]; reflexivity.
Qed.

(** ** The accumulator along a run *)

Lemma offered_name_not_NA (row_locator : RowLocator) (n : pystr) :
  n ∈ offered_name row_locator -> n <> NA.
Proof.
  unfold offered_name.
  destruct (0 <? chain_links row_locator)%nat; [|intros H; inversion H].
  destruct (extract_data_from_row row_locator) as [d|]; [|intros H; inversion H].
  destruct (decide (Name d <> NA)); [|intros H; inversion H].
  intros H. apply list_elem_of_singleton in H. congruence.
Qed.

Lemma pass_names_not_NA (passes : list Pass) :
  NA ∉ flat_map pass_names passes.
Proof.
  intros H. apply list_elem_of_In, in_flat_map in H as [p [_ H]].
  apply in_flat_map in H as [r [_ H]].
  apply list_elem_of_In in H. exact (offered_name_not_NA _ _ H eq_refl).
Qed.

Lemma visit_row_tracks (st : Locals) (offered : list pystr) (row_locator : RowLocator) :
  tracks st offered ->
  tracks (visit_row st row_locator) (offered ++ offered_name row_locator).
Proof.
  intros [Hl Hs]. unfold visit_row, offered_name.
  destruct (0 <? chain_links row_locator)%nat;
    [|rewrite app_nil_r; split; assumption].
  destruct (extract_data_from_row row_locator) as [d|]; simpl;
    [|rewrite app_nil_r; split; assumption].
  destruct (decide (Name d <> NA)); [|rewrite app_nil_r; split; assumption].
  destruct (decide (Name d ∉ unique_names st)) as [Hnew|Hold].
  - split; simpl.
    + rewrite map_app, Hl. simpl. symmetry.
      apply first_occurrences_snoc_new. rewrite <- Hs. exact Hnew.
    + intros m. rewrite elem_of_union, elem_of_singleton, elem_of_app,
        list_elem_of_singleton, Hs. tauto.
  - assert (Hin : Name d ∈ offered).
    { apply Hs. destruct (decide (Name d ∈ unique_names st)); tauto. }
    split.
    + rewrite Hl. symmetry. apply first_occurrences_snoc_old, Hin.
    + intros m. rewrite elem_of_app, list_elem_of_singleton, Hs.
      split; [tauto|]. intros [H| ->]; assumption.
Qed.

Lemma visit_rows_tracks (rows : list RowLocator) (st : Locals) (offered : list pystr) :
  tracks st offered ->
  tracks (fold_left visit_row rows st) (offered ++ flat_map offered_name rows).
Proof.
  revert st offered. induction rows as [|r rows IH]; intros st offered H; simpl.
  - rewrite app_nil_r. exact H.
  - rewrite app_assoc. apply IH, visit_row_tracks, H.
Qed.

Lemma loop_body_tracks (st : Locals) (offered : list pystr) (p : Pass) :
  tracks st offered ->
  exists st', (loop_body st p = Break st' \/ loop_body st p = Continue st')
    /\ tracks st' (offered ++ pass_names p)
    /\ wheels st' = S (wheels st).
Proof.
  intros H.
  pose proof (visit_rows_tracks (visible_rows p) st offered H) as Ht.
  pose proof (visit_rows_control (visible_rows p) st) as (_ & _ & _ & Hw).
  pose proof (loop_body_cases st p) as Hc. simpl in Hc.
  destruct (reached_end st (scrollY (after_wheel p)));
    [destruct (attempt st <=? 0)|];
    eexists; (split; [rewrite Hc; eauto|]); (split; [exact Ht|]);
    simpl; congruence.
Qed.

Lemma scrape_loop_tracks (passes : list Pass) (st st' : Locals) (offered : list pystr) :
  tracks st offered ->
  scrape_loop st passes = Some st' ->
  (wheels st < wheels st')%nat
  /\ tracks st'
       (offered ++ flat_map pass_names (take (wheels st' - wheels st) passes)).
Proof.
  revert st offered. induction passes as [|p rest IH]; intros st offered Ht Hrun;
    simpl in Hrun; [discriminate|].
  destruct (loop_body_tracks st offered p Ht) as (st1 & Hb & Ht1 & Hw).
  destruct Hb as [Hb|Hb]; rewrite Hb in Hrun.
  - injection Hrun as <-. rewrite Hw. split; [lia|].
    replace (S (wheels st) - wheels st)%nat with 1%nat by lia.
    simpl. rewrite app_nil_r. exact Ht1.
  - destruct (IH st1 _ Ht1 Hrun) as [Hlt Ht']. split; [lia|].
    replace (wheels st' - wheels st)%nat with (S (wheels st' - wheels st1)) by lia.
    simpl. rewrite app_assoc. exact Ht'.
Qed.

Lemma init_tracks (page0 : PageMetrics) : tracks (init_locals page0) [].
Proof.
  split; [reflexivity|]. intros n. simpl.
  rewrite elem_of_empty, elem_of_nil. tauto.
Qed.

Lemma offer_appends (st : Locals) (d : chain_data) :
  Name d <> NA -> Name d ∉ unique_names st ->
  offer st (Some d)
  = {| page_height := page_height st;
       window_height := window_height st;
       data_list := data_list st ++ [d];
       unique_names := {[ Name d ]} ∪ unique_names st;
       attempt := attempt st;
       wheels := wheels st |}.
Proof.
  intros H1 H2. unfold offer.
  destruct (decide (Name d <> NA)); [|contradiction].
  destruct (decide (Name d ∉ unique_names st)); [reflexivity|contradiction].
Qed.

Lemma offer_rejects (st : Locals) (d : chain_data) :
  ~ (Name d <> NA /\ Name d ∉ unique_names st) -> offer st (Some d) = st.
Proof.
  intros H. unfold offer.
  destruct (decide (Name d <> NA)); [|reflexivity].
  destruct (decide (Name d ∉ unique_names st)); [tauto|reflexivity].
Qed.

Lemma offer_prefix (st : Locals) (e : option chain_data) :
  data_list st `prefix_of` data_list (offer st e).
Proof.
  destruct e as [d|]; [|reflexivity].
  destruct (decide (Name d <> NA /\ Name d ∉ unique_names st)) as [[H1 H2]|H].
  - rewrite (offer_appends _ _ H1 H2). simpl. apply prefix_app_r. reflexivity.
  - rewrite (offer_rejects _ _ H). reflexivity.
Qed.

(** C1. The [data_list] a run returns holds no two entries with the
    same Name and none named ["N/A"]; and the loop appends an extracted
    row exactly when its Name is not ["N/A"] and not in [unique_names],
    leaving the list as it is otherwise. *)
Theorem scrape_data_unique_names (now : datetime) (page0 : PageMetrics)
    (passes : list Pass) (result : pydict) :
  scrape_data now page0 passes = Some result ->
  (exists rows,
      result = scraped_data (date_label now) rows
      /\ NoDup (map Name rows) /\ NA ∉ map Name rows)
  /\ (forall st d,
        (data_list (offer st (Some d)) = data_list st ++ [d]
         <-> Name d <> NA /\ Name d ∉ unique_names st)
        /\ (data_list (offer st (Some d)) = data_list st
            <-> ~ (Name d <> NA /\ Name d ∉ unique_names st)))
  /\ (forall st, offer st None = st).
Proof.
  intros Hrun. split; [|split; [|reflexivity]].
  - unfold scrape_data in Hrun.
    destruct (scrape_loop (init_locals page0) passes) as [st|] eqn:Hloop;
      [|discriminate].
    injection Hrun as <-. exists (data_list st). split; [reflexivity|].
    destruct (scrape_loop_tracks _ _ _ _ (init_tracks page0) Hloop) as [_ [Hl _]].
    simpl in Hl. rewrite Hl. split.
    + apply NoDup_first_occurrences.
    + rewrite elem_of_first_occurrences. apply pass_names_not_NA.
  - intros st d.
    assert (Hlen : data_list st ++ [d] <> data_list st).
    { intros E. apply (f_equal length) in E. rewrite length_app in E.
      simpl in E. lia. }
    destruct (decide (Name d <> NA /\ Name d ∉ unique_names st)) as [[H1 H2]|H].
    + rewrite (offer_appends _ _ H1 H2). simpl. tauto.
    + rewrite (offer_rejects _ _ H). split; split; intros; try tauto.
      exfalso. apply Hlen. symmetry. assumption.
Qed.

Lemma scrape_data_unique_names_witness :
  (exists rows,
      scraped_data (date_label sample_now) sample_rows
      = scraped_data (date_label sample_now) rows
      /\ NoDup (map Name rows) /\ NA ∉ map Name rows)
  /\ (forall st d,
        (data_list (offer st (Some d)) = data_list st ++ [d]
         <-> Name d <> NA /\ Name d ∉ unique_names st)
        /\ (data_list (offer st (Some d)) = data_list st
            <-> ~ (Name d <> NA /\ Name d ∉ unique_names st)))
  /\ (forall st, offer st None = st).
Proof.
  apply (scrape_data_unique_names sample_now sample_page sample_passes).
  vm_compute. reflexivity.
Defined.

(** C4. The names in the [data_list] of a run are the names offered
    during the passes it ran, each at the place of its first occurrence;
    offering a row whose Name is already in [unique_names] changes
    nothing, and no offer moves or replaces an entry already in the
    list. *)
Theorem first_occurrence_fixes_position (page0 : PageMetrics)
    (passes : list Pass) (st : Locals) :
  scrape_loop (init_locals page0) passes = Some st ->
  map Name (data_list st)
  = first_occurrences (flat_map pass_names (take (wheels st) passes))
  /\ (forall st0 d, Name d ∈ unique_names st0 -> offer st0 (Some d) = st0)
  /\ (forall st0 e i d,
        data_list st0 !! i = Some d -> data_list (offer st0 e) !! i = Some d).
Proof.
  intros Hloop. repeat split.
  - destruct (scrape_loop_tracks _ _ _ _ (init_tracks page0) Hloop) as [_ [Hl _]].
    simpl in Hl. rewrite Nat.sub_0_r in Hl. exact Hl.
  - intros st0 d Hin. apply offer_rejects. tauto.
  - intros st0 e i d Hi.
    destruct (offer_prefix st0 e) as [k ->].
    apply lookup_app_l_Some. exact Hi.
Qed.

Lemma first_occurrence_fixes_position_witness :
  map Name (data_list sample_final)
  = first_occurrences (flat_map pass_names (take (wheels sample_final) sample_passes))
  /\ (forall st0 d, Name d ∈ unique_names st0 -> offer st0 (Some d) = st0)
  /\ (forall st0 e i d,
        data_list st0 !! i = Some d -> data_list (offer st0 e) !! i = Some d).
Proof.
  apply (first_occurrence_fixes_position sample_page sample_passes sample_final).
  vm_compute. reflexivity.
Defined.

(** ** The variables that steer the loop *)

Section Steering.

(** The page as lines 39 and 40 found it. *)
Variable page0 : PageMetrics.

(** Closes the description of a pass once [Hc] says how it ended. *)
Ltac finish_pass Hc Hs p st :=
  let H1 := fresh in let H2 := fresh in let H3 := fresh in let H4 := fresh in
  let Hp := fresh in let Hw := fresh in
  destruct (visit_rows_control (visible_rows p) st) as (H1 & H2 & H3 & H4);
  destruct Hs as [Hp Hw];
  eexists; split; [exact Hc|]; unfold started_from; simpl;
  repeat split; congruence.

Lemma end_reading_started (st : Locals) (p : Pass) :
  started_from page0 st ->
  reached_end st (scrollY (after_wheel p)) = end_reading page0 p.
Proof. intros [H1 H2]. unfold end_reading, reached_end. rewrite H1, H2. reflexivity. Qed.

Lemma init_started : started_from page0 (init_locals page0).
Proof. split; reflexivity. Qed.

(** A reading short of the end: the pass only collects and scrolls. *)
Lemma loop_body_scanning (st : Locals) (p : Pass) :
  started_from page0 st -> end_reading page0 p = false ->
  exists st', loop_body st p = Continue st'
    /\ started_from page0 st' /\ attempt st' = attempt st
    /\ wheels st' = S (wheels st).
Proof.
  intros Hs He. pose proof (loop_body_cases st p) as Hc. simpl in Hc.
  rewrite (end_reading_started _ _ Hs), He in Hc.
  finish_pass Hc Hs p st.
Qed.

(** A reading at the end with budget left: one retry is used up. *)
Lemma loop_body_retry (st : Locals) (p : Pass) :
  started_from page0 st -> end_reading page0 p = true -> 0 < attempt st ->
  exists st', loop_body st p = Continue st'
    /\ started_from page0 st' /\ attempt st' = attempt st - 1
    /\ wheels st' = S (wheels st).
Proof.
  intros Hs He Ha. pose proof (loop_body_cases st p) as Hc. simpl in Hc.
  rewrite (end_reading_started _ _ Hs), He in Hc.
  destruct (Z.leb_spec (attempt st) 0); [lia|].
  finish_pass Hc Hs p st.
Qed.

(** A reading at the end with no budget left: the loop is left. *)
Lemma loop_body_break (st : Locals) (p : Pass) :
  started_from page0 st -> end_reading page0 p = true -> attempt st <= 0 ->
  exists st', loop_body st p = Break st'
    /\ started_from page0 st' /\ attempt st' = attempt st
    /\ wheels st' = S (wheels st).
Proof.
  intros Hs He Ha. pose proof (loop_body_cases st p) as Hc. simpl in Hc.
  rewrite (end_reading_started _ _ Hs), He in Hc.
  destruct (Z.leb_spec (attempt st) 0); [|lia].
  finish_pass Hc Hs p st.
Qed.

(** Every pass: the heights stay, the counter does not go up. *)
Lemma loop_body_step (st : Locals) (p : Pass) :
  started_from page0 st ->
  exists st', (loop_body st p = Continue st' \/ loop_body st p = Break st')
    /\ started_from page0 st'
    /\ attempt st' <= attempt st
    /\ (end_reading page0 p = false -> attempt st' = attempt st)
    /\ (end_reading page0 p = true -> attempt st' <= Z.max 0 (attempt st - 1)).
Proof.
  intros Hs. destruct (end_reading page0 p) eqn:He.
  - destruct (Z.le_gt_cases (attempt st) 0) as [Ha|Ha].
    + destruct (loop_body_break _ _ Hs He Ha) as (st' & Hb & Hs' & Hat & _).
      exists st'. split; [auto|]. split; [exact Hs'|]. split; [lia|].
      split; intros; try discriminate; lia.
    + destruct (loop_body_retry _ _ Hs He Ha) as (st' & Hb & Hs' & Hat & _).
      exists st'. split; [auto|]. split; [exact Hs'|]. split; [lia|].
      split; intros; try discriminate; lia.
  - destruct (loop_body_scanning _ _ Hs He) as (st' & Hb & Hs' & Hat & _).
    exists st'. split; [auto|]. split; [exact Hs'|]. split; [lia|].
      split; intros; try discriminate; lia.
Qed.

Lemma scanning_passes (scanning rest : list Pass) (st : Locals) :
  started_from page0 st ->
  Forall (fun p => end_reading page0 p = false) scanning ->
  exists st1, scrape_loop st (scanning ++ rest) = scrape_loop st1 rest
    /\ started_from page0 st1 /\ attempt st1 = attempt st
    /\ wheels st1 = (wheels st + length scanning)%nat.
Proof.
  intros Hs Hall. revert st Hs.
  induction Hall as [|p scanning Hp Hall IH]; intros st Hs.
  - exists st. simpl. repeat split; try apply Hs; lia.
  - destruct (loop_body_scanning _ _ Hs Hp) as (st' & Hb & Hs' & Hat & Hw).
    destruct (IH st' Hs') as (st1 & Hrun & Hs1 & Hat1 & Hw1).
    exists st1. simpl. rewrite Hb. repeat split; try apply Hs1; try congruence.
    rewrite Hw1, Hw. lia.
Qed.

Lemma at_end_passes (at_end : list Pass) (st : Locals) :
  started_from page0 st ->
  Forall (fun p => end_reading page0 p = true) at_end ->
  0 <= attempt st ->
  (Z.of_nat (length at_end) <= attempt st -> scrape_loop st at_end = None)
  /\ (attempt st < Z.of_nat (length at_end) ->
      exists st', scrape_loop st at_end = Some st'
        /\ Z.of_nat (wheels st') = Z.of_nat (wheels st) + attempt st + 1
        /\ attempt st' = 0).
Proof.
  intros Hs Hall. revert st Hs.
  induction Hall as [|p at_end Hp Hall IH]; intros st Hs Ha.
  - simpl. split; [reflexivity|lia].
  - destruct (Z.le_gt_cases (attempt st) 0) as [H0|H0].
    + destruct (loop_body_break _ _ Hs Hp H0) as (st' & Hb & Hs' & Hat & Hw).
      simpl scrape_loop. rewrite Hb. split.
      * rewrite length_cons. lia.
      * intros _. exists st'. split; [reflexivity|]. lia.
    + destruct (loop_body_retry _ _ Hs Hp H0) as (st' & Hb & Hs' & Hat & Hw).
      simpl scrape_loop. rewrite Hb.
      destruct (IH st' Hs') as [IH1 IH2]; [lia|]. split.
      * intros Hlen. apply IH1. rewrite length_cons in Hlen. lia.
      * intros Hlen. destruct IH2 as (st2 & Hrun & Hw2 & Hat2).
        { rewrite length_cons in Hlen. lia. }
        exists st2. split; [exact Hrun|]. lia.
Qed.

(** The states of a run, one after the other. *)

Lemma trajectory_cons (st : Locals) (p : Pass) (rest : list Pass) :
  exists st' rest',
    trajectory st (p :: rest) = st :: trajectory st' rest'
    /\ ((loop_body st p = Continue st' /\ rest' = rest)
        \/ (loop_body st p = Break st' /\ rest' = [])).
Proof.
  simpl. destruct (loop_body st p) as [st'|st'].
  - exists st', rest. split; [reflexivity|]. left. split; reflexivity.
  - exists st', []. split; [reflexivity|]. right. split; reflexivity.
Qed.

Lemma trajectory_bounded (passes : list Pass) (st : Locals) :
  started_from page0 st ->
  Forall (fun st' => started_from page0 st' /\ attempt st' <= attempt st)
    (trajectory st passes).
Proof.
  revert st. induction passes as [|p rest IH]; intros st Hs.
  - simpl. repeat constructor; try apply Hs. lia.
  - destruct (loop_body_step st p Hs) as (st1 & Hb & Hs1 & Hle & _).
    destruct (trajectory_cons st p rest) as (st' & rest' & -> & Hcase).
    constructor; [split; [exact Hs|lia]|].
    assert (st' = st1) as ->.
    { destruct Hcase as [[E _]|[E _]], Hb as [E'|E']; congruence. }
    assert (Hall : Forall (fun st' => started_from page0 st' /\ attempt st' <= attempt st1)
                     (trajectory st1 rest')).
    { destruct Hcase as [[_ ->]|[_ ->]]; [apply IH, Hs1|].
      simpl. repeat constructor; try apply Hs1. lia. }
    eapply Forall_impl; [exact Hall|]. simpl. intros x [Hx Hax]. split; [exact Hx|lia].
Qed.

Lemma trajectory_lookup_step (passes : list Pass)
    (st0 st st' : Locals) (i : nat) (p : Pass) :
  started_from page0 st0 ->
  passes !! i = Some p ->
  trajectory st0 passes !! i = Some st ->
  trajectory st0 passes !! S i = Some st' ->
  started_from page0 st
  /\ (loop_body st p = Continue st' \/ loop_body st p = Break st').
Proof.
  revert st0 i. induction passes as [|p0 rest IH]; intros st0 i Hs Hp Hi HSi;
    [discriminate|].
  destruct (trajectory_cons st0 p0 rest) as (st1 & rest' & Htr & Hcase).
  rewrite Htr in Hi, HSi.
  destruct i as [|i]; simpl in Hp, Hi, HSi.
  - injection Hp as <-. injection Hi as <-. split; [exact Hs|].
    destruct rest'; simpl in HSi; injection HSi as <-;
      destruct Hcase as [[E _]|[E _]]; auto.
  - destruct Hcase as [[E ->]|[E ->]].
    + destruct (loop_body_step st0 p0 Hs) as (st2 & Hb & Hs2 & _).
      assert (st2 = st1) as -> by (destruct Hb; congruence).
      exact (IH st1 i Hs2 Hp Hi HSi).
    + destruct i; simpl in HSi; discriminate.
Qed.

Lemma attempts_lookup (passes : list Pass) (i : nat) (a : Z) :
  attempts page0 passes !! i = Some a
  <-> exists st, trajectory (init_locals page0) passes !! i = Some st
                 /\ attempt st = a.
Proof.
  unfold attempts.
  change (map attempt (trajectory (init_locals page0) passes))
    with (attempt <$> trajectory (init_locals page0) passes).
  rewrite list_lookup_fmap, fmap_Some.
  split; intros (st & H1 & H2); exists st; split; congruence.
Qed.

Lemma trajectory_sorted (passes : list Pass) (st0 : Locals)
    (i j : nat) (st st' : Locals) :
  started_from page0 st0 -> (i <= j)%nat ->
  trajectory st0 passes !! i = Some st ->
  trajectory st0 passes !! j = Some st' ->
  attempt st' <= attempt st.
Proof.
  revert st0 i j. induction passes as [|p rest IH]; intros st0 i j Hs Hij Hi Hj.
  - destruct i, j; simpl in Hi, Hj; try discriminate.
    injection Hi as <-. injection Hj as <-. lia.
  - destruct i as [|i].
    + simpl in Hi. injection Hi as <-.
      pose proof (trajectory_bounded (p :: rest) _ Hs) as Hall.
      rewrite Forall_lookup in Hall. exact (proj2 (Hall j st' Hj)).
    + destruct j as [|j]; [lia|].
      destruct (trajectory_cons st0 p rest) as (st1 & rest' & Htr & Hcase).
      rewrite Htr in Hi, Hj. simpl in Hi, Hj.
      destruct (loop_body_step st0 p Hs) as (st2 & Hb & Hs2 & _).
      assert (st2 = st1) as ->.
      { destruct Hcase as [[E _]|[E _]], Hb as [E'|E']; congruence. }
      destruct Hcase as [[_ ->]|[_ ->]].
      * apply (IH st1 i j Hs2); [lia|assumption|assumption].
      * destruct i, j; simpl in Hi, Hj; try discriminate.
        injection Hi as <-. injection Hj as <-. lia.
Qed.

Lemma trajectory_pass_effect (passes : list Pass)
    (i : nat) (p : Pass) (st st' : Locals) :
  passes !! i = Some p ->
  trajectory (init_locals page0) passes !! i = Some st ->
  trajectory (init_locals page0) passes !! S i = Some st' ->
  attempt st <= 3
  /\ (end_reading page0 p = false -> attempt st' = attempt st)
  /\ (end_reading page0 p = true -> attempt st' <= Z.max 0 (attempt st - 1)).
Proof.
  intros Hp Hi HSi.
  destruct (trajectory_lookup_step passes _ st st' i p
              init_started Hp Hi HSi) as [Hs Hb].
  destruct (loop_body_step st p Hs) as (st1 & Hb1 & _ & _ & Hf & Ht).
  assert (st1 = st') as -> by (destruct Hb, Hb1; congruence).
  pose proof (trajectory_bounded passes _ init_started) as Hall.
  rewrite Forall_lookup in Hall. destruct (Hall i st Hi) as [_ Hle].
  simpl in Hle. auto.
Qed.

End Steering.

(** ** Leaving the loop *)

(** C2, as the code has it.  When every reading from the first one at
    the end of the page on is again at the end, the loop is left on the
    fourth of these readings: the wheel event that first found the end
    and exactly three more (one initial reading and three retries, four
    wheel events in all).  With fewer than four such readings the loop
    is still running. *)
Theorem loop_stops_three_wheels_after_first_end_reading
    (page0 : PageMetrics) (scanning at_end : list Pass) :
  Forall (fun p => end_reading page0 p = false) scanning ->
  Forall (fun p => end_reading page0 p = true) at_end ->
  ((length at_end < 4)%nat ->
     scrape_loop (init_locals page0) (scanning ++ at_end) = None)
  /\ ((4 <= length at_end)%nat ->
      stops_after 3 page0 scanning at_end
      /\ forall extra, stops_after extra page0 scanning at_end -> extra = 3%nat).
Proof.
  intros Hscan Hend.
  destruct (scanning_passes page0 scanning at_end _ (init_started page0) Hscan)
    as (st1 & Hrun & Hs1 & Hat1 & Hw1).
  simpl in Hat1, Hw1.
  destruct (at_end_passes page0 at_end st1 Hs1 Hend) as [Hnone Hsome]; [lia|].
  split.
  - intros Hlen. rewrite Hrun. apply Hnone. lia.
  - intros Hlen. destruct Hsome as (st' & Hrun' & Hw' & _); [lia|].
    assert (Hw : wheels st' = (length scanning + 1 + 3)%nat) by lia.
    split.
    + exists st'. split; [congruence|exact Hw].
    + intros extra (st2 & Hrun2 & Hw2).
      rewrite Hrun, Hrun' in Hrun2. injection Hrun2 as <-. lia.
Qed.

Lemma loop_stops_three_wheels_after_first_end_reading_witness :
  ((length sample_at_end < 4)%nat ->
     scrape_loop (init_locals sample_page) (sample_scanning ++ sample_at_end) = None)
  /\ ((4 <= length sample_at_end)%nat ->
      stops_after 3 sample_page sample_scanning sample_at_end
      /\ forall extra,
          stops_after extra sample_page sample_scanning sample_at_end ->
          extra = 3%nat).
Proof.
  apply (loop_stops_three_wheels_after_first_end_reading
           sample_page sample_scanning sample_at_end).
  - repeat constructor.
  - repeat constructor.
Defined.

(** C2, as the specification words it (four more wheel events after the
    one that first found the end), fails on a page that never grows:
    the first reading is short of the end, the six after it are at the
    end, and the loop is left after the fifth wheel event, three after
    the second. *)
Lemma four_more_wheels_counterexample :
  Forall (fun p => end_reading sample_page p = false) sample_scanning
  /\ Forall (fun p => end_reading sample_page p = true) sample_at_end
  /\ Forall (fun p => scrollHeight (after_wheel p) = scrollHeight sample_page)
       (sample_scanning ++ sample_at_end)
  /\ scrape_loop (init_locals sample_page) (sample_scanning ++ sample_at_end)
     = Some sample_final
  /\ wheels sample_final = (length sample_scanning + 1 + 3)%nat
  /\ ~ stops_after 4 sample_page sample_scanning sample_at_end.
Proof.
  assert (Hrun : scrape_loop (init_locals sample_page)
                   (sample_scanning ++ sample_at_end) = Some sample_final)
    by (vm_compute; reflexivity).
  split; [repeat constructor|]. split; [repeat constructor|].
  split; [repeat constructor|]. split; [exact Hrun|]. split; [reflexivity|].
  intros (st & Hst & Hw). rewrite Hrun in Hst. injection Hst as <-.
  simpl in Hw. discriminate.
Qed.

(** ** The retry counter along a run *)

(** C5. The retry counter is 3 when the loop is entered and, from one
    pass of a run to any later one, it never goes up. *)
Theorem attempt_starts_at_three_and_never_increases
    (page0 : PageMetrics) (passes : list Pass) :
  head (attempts page0 passes) = Some 3
  /\ forall i j a b, (i <= j)%nat ->
       attempts page0 passes !! i = Some a ->
       attempts page0 passes !! j = Some b ->
       b <= a.
Proof.
  split.
  - destruct passes; reflexivity.
  - intros i j a b Hij Hi Hj.
    apply attempts_lookup in Hi as (st & Hi & <-).
    apply attempts_lookup in Hj as (st' & Hj & <-).
    exact (trajectory_sorted page0 passes _ i j st st' (init_started page0) Hij Hi Hj).
Qed.

(** C3, as the code has it.  The retry budget is never given back.  A
    pass whose reading is short of the end (by the test against the
    heights read before the loop) leaves the counter as it is; once a
    reading has been at the end, the counter is at most 2 for the rest
    of the run; and the test does not see what height the document has
    grown to. *)
Theorem retry_budget_is_never_given_back
    (page0 : PageMetrics) (passes : list Pass) (i : nat) (p : Pass) :
  passes !! i = Some p ->
  (end_reading page0 p = false ->
     forall a a', attempts page0 passes !! i = Some a ->
                  attempts page0 passes !! S i = Some a' -> a' = a)
  /\ (end_reading page0 p = true ->
      forall j b, (i < j)%nat -> attempts page0 passes !! j = Some b -> b <= 2)
  /\ (forall doc_height view_height,
        end_reading page0 (with_heights doc_height view_height p)
        = end_reading page0 p).
Proof.
  intros Hp. split; [|split; [|reflexivity]].
  - intros He a a' Hi HSi.
    apply attempts_lookup in Hi as (st & Hi & <-).
    apply attempts_lookup in HSi as (st' & HSi & <-).
    destruct (trajectory_pass_effect page0 passes i p st st' Hp Hi HSi)
      as (_ & Hf & _).
    exact (Hf He).
  - intros He j b Hij Hj.
    apply attempts_lookup in Hj as (stj & Hj & <-).
    pose proof (lookup_lt_Some _ _ _ Hj) as Hlen.
    destruct (lookup_lt_is_Some_2 (trajectory (init_locals page0) passes) i)
      as [st Hi]; [lia|].
    destruct (lookup_lt_is_Some_2 (trajectory (init_locals page0) passes) (S i))
      as [st' HSi]; [lia|].
    destruct (trajectory_pass_effect page0 passes i p st st' Hp Hi HSi)
      as (H3 & _ & Ht).
    specialize (Ht He).
    pose proof (trajectory_sorted page0 passes _ (S i) j st' stj
                  (init_started page0) ltac:(lia) HSi Hj).
    lia.
Qed.

Lemma retry_budget_is_never_given_back_witness :
  (end_reading growing_page (at_scroll [] 900 2000) = false ->
     forall a a', attempts growing_page growing_passes !! 1%nat = Some a ->
                  attempts growing_page growing_passes !! 2%nat = Some a' -> a' = a)
  /\ (end_reading growing_page (at_scroll [] 900 2000) = true ->
      forall j b, (1 < j)%nat ->
                  attempts growing_page growing_passes !! j = Some b -> b <= 2)
  /\ (forall doc_height view_height,
        end_reading growing_page
          (with_heights doc_height view_height (at_scroll [] 900 2000))
        = end_reading growing_page (at_scroll [] 900 2000)).
Proof.
  apply (retry_budget_is_never_given_back growing_page growing_passes 1
           (at_scroll [] 900 2000)).
  reflexivity.
Defined.

(** C3, as the specification words it, fails.  The first reading is at
    the end of a page 1000 pixels tall; by the second the document is
    2000 pixels tall and the viewport is 500 pixels short of its end;
    the counter goes on from 2 to 1 all the same, it is 1 and not 3
    when the third reading is at the end again, and the loop is left on
    the fourth reading. *)
Lemma budget_not_given_back_counterexample :
  grows_after_bottom growing_page growing_passes 0
  /\ (exists q, growing_passes !! 1%nat = Some q
        /\ scrollY (after_wheel q) + innerHeight (after_wheel q)
           < scrollHeight (after_wheel q))
  /\ attempts growing_page growing_passes = [3; 2; 1; 0; 0]
  /\ ~ budget_given_back growing_page growing_passes.
Proof.
  assert (Hg : grows_after_bottom growing_page growing_passes 0).
  { eexists _, _. split; [reflexivity|]. split; [reflexivity|].
    split; [reflexivity|]. simpl. lia. }
  split; [exact Hg|]. split.
  { eexists. split; [reflexivity|]. simpl. lia. }
  split; [reflexivity|].
  intros H. destruct (H 0%nat Hg) as [(a & H1 & H2) _].
  vm_compute in H1, H2. congruence.
Qed.

(** ** The heights the end test compares with *)

Lemma loop_body_same_readings (st : Locals) (p q : Pass) :
  same_readings p q -> loop_body st p = loop_body st q.
Proof. intros [Hr Hy]. unfold loop_body. rewrite Hr, Hy. reflexivity. Qed.

Lemma trajectory_same_readings (passes passes' : list Pass) (st : Locals) :
  Forall2 same_readings passes passes' ->
  trajectory st passes' = trajectory st passes
  /\ scrape_loop st passes' = scrape_loop st passes.
Proof.
  intros Hall. revert st.
  induction Hall as [|p q passes passes' Hpq Hall IH]; intros st.
  - split; reflexivity.
  - simpl. rewrite <- (loop_body_same_readings st p q Hpq).
    destruct (loop_body st p) as [st'|st'].
    + destruct (IH st') as [-> ->]. split; reflexivity.
    + split; reflexivity.
Qed.

(** C10. The heights the end test compares the scroll position with are
    the ones read from the page before the loop: they are the same at
    every pass of a run, and a run takes the same course, to the same
    result, whatever heights the document and the window have come to
    have while it scrolls. *)
Theorem end_test_uses_heights_read_before_loop
    (page0 : PageMetrics) (passes passes' : list Pass) :
  Forall2 same_readings passes passes' ->
  Forall (fun st => page_height st = scrollHeight page0
                    /\ window_height st = innerHeight page0
                    /\ forall y, reached_end st y
                                 = (scrollHeight page0 <=? y + innerHeight page0))
    (trajectory (init_locals page0) passes)
  /\ trajectory (init_locals page0) passes' = trajectory (init_locals page0) passes
  /\ forall now, scrape_data now page0 passes' = scrape_data now page0 passes.
Proof.
  intros Hall. split; [|split].
  - eapply Forall_impl;
      [exact (trajectory_bounded page0 passes _ (init_started page0))|].
    simpl. intros st [[H1 H2] _]. split; [exact H1|]. split; [exact H2|].
    intros y. unfold reached_end. rewrite H1, H2. reflexivity.
  - apply trajectory_same_readings, Hall.
  - intros now. unfold scrape_data.
    destruct (trajectory_same_readings _ _ (init_locals page0) Hall) as [_ ->].
    reflexivity.
Qed.

Lemma end_test_uses_heights_read_before_loop_witness :
  Forall (fun st => page_height st = scrollHeight growing_page
                    /\ window_height st = innerHeight growing_page
                    /\ forall y, reached_end st y
                                 = (scrollHeight growing_page
                                    <=? y + innerHeight growing_page))
    (trajectory (init_locals growing_page) taller_passes)
  /\ trajectory (init_locals growing_page) growing_passes
     = trajectory (init_locals growing_page) taller_passes
  /\ forall now, scrape_data now growing_page growing_passes
                 = scrape_data now growing_page taller_passes.
Proof.
  apply (end_test_uses_heights_read_before_loop growing_page
           taller_passes growing_passes).
  repeat constructor.
Defined.

(** ** The result of a run *)

Lemma scrape_loop_returns (page0 : PageMetrics) (passes : list Pass) (st : Locals) :
  started_from page0 st -> 0 <= attempt st ->
  (Z.of_nat (end_readings page0 passes) <= attempt st ->
     scrape_loop st passes = None)
  /\ (attempt st < Z.of_nat (end_readings page0 passes) ->
      exists st', scrape_loop st passes = Some st').
Proof.
  revert st. induction passes as [|p rest IH]; intros st Hs Ha.
  - simpl. split; [reflexivity|lia].
  - simpl end_readings. simpl scrape_loop.
    destruct (end_reading page0 p) eqn:He.
    + destruct (Z.le_gt_cases (attempt st) 0) as [H0|H0].
      * destruct (loop_body_break _ _ _ Hs He H0) as (st' & -> & _).
        split; [lia|]. intros _. exists st'. reflexivity.
      * destruct (loop_body_retry _ _ _ Hs He H0) as (st' & -> & Hs' & Hat & _).
        destruct (IH st' Hs') as [IH1 IH2]; [lia|].
        split; intros H; [apply IH1|apply IH2]; lia.
    + destruct (loop_body_scanning _ _ _ Hs He) as (st' & -> & Hs' & Hat & _).
      destruct (IH st' Hs') as [IH1 IH2]; [lia|].
      split; intros H; [apply IH1|apply IH2]; lia.
Qed.







(** ** The result file *)

(** C7. When the result file holds one JSON value that is not a list,
    that value is taken as a prior state of length 1 and the new batch
    is put after it: the list written to the file has length 2. *)
Theorem main_wraps_single_object
    (now : datetime) (page0 : PageMetrics) (passes : list Pass)
    (existing_data : json) (scraped_result : pydict) :
  isinstance_list existing_data = false ->
  scrape_data now page0 passes = Some scraped_result ->
  main now page0 passes (Some (Loaded existing_data))
  = Some (JList [existing_data; JObj scraped_result])
  /\ length (main_results (Some (Loaded existing_data)) scraped_result) = 2%nat.
Proof.
  intros Hlist Hrun. unfold main. rewrite Hrun.
  destruct existing_data; try discriminate; split; reflexivity.
Qed.

Lemma main_wraps_single_object_witness :
  main sample_now sample_page sample_passes
    (Some (Loaded (JObj [(lit "old", JNull)])))
  = Some (JList [JObj [(lit "old", JNull)];
                 JObj (scraped_data (date_label sample_now) sample_rows)])
  /\ length (main_results (Some (Loaded (JObj [(lit "old", JNull)])))
              (scraped_data (date_label sample_now) sample_rows)) = 2%nat.
Proof.
  apply (main_wraps_single_object sample_now sample_page sample_passes).
  - reflexivity.
  - vm_compute. reflexivity.
Defined.

(** ** Dictionaries *)

Lemma dict_get_set (d : pydict) (k k' : pystr) (v : json) :
  dict_get (dict_set d k v) k'
  = if decide (k = k') then Some v else dict_get d k'.
Proof.
  induction d as [|[k0 v0] d IH]; simpl.
  - destruct (decide (k = k')); reflexivity.
  - destruct (decide (k0 = k)) as [->|Hne]; simpl.
    + destruct (decide (k = k')); reflexivity.
    + rewrite IH. destruct (decide (k0 = k')) as [->|]; [|reflexivity].
      destruct (decide (k = k')); [congruence|reflexivity].
Qed.

Lemma dict_set_keys (d : pydict) (k : pystr) (v : json) (k' : pystr) :
  k' ∈ map fst (dict_set d k v) <-> k' = k \/ k' ∈ map fst d.
Proof.
  induction d as [|[k0 v0] d IH]; simpl.
  - rewrite list_elem_of_singleton, elem_of_nil. tauto.
  - destruct (decide (k0 = k)) as [->|Hne]; simpl.
    + rewrite !elem_of_cons. tauto.
    + rewrite !elem_of_cons, IH. tauto.
Qed.

Lemma dict_set_NoDup (d : pydict) (k : pystr) (v : json) :
  NoDup (map fst d) -> NoDup (map fst (dict_set d k v)).
Proof.
  induction d as [|[k0 v0] d IH]; simpl; intros Hd.
  - repeat constructor. apply not_elem_of_nil.
  - apply NoDup_cons in Hd as [Hk0 Hd].
    destruct (decide (k0 = k)) as [->|Hne]; simpl; apply NoDup_cons.
    + split; assumption.
    + split; [|apply IH, Hd]. rewrite dict_set_keys. intros [E|E]; congruence.
Qed.

Lemma dict_set_present (d : pydict) (k : pystr) (v : json) :
  NoDup (map fst d) -> (k, v) ∈ d -> dict_set d k v = d.
Proof.
  induction d as [|[k0 v0] d IH]; simpl; intros Hd Hin.
  - apply elem_of_nil in Hin. contradiction.
  - apply NoDup_cons in Hd as [Hk0 Hd].
    apply elem_of_cons in Hin as [E|Hin].
    + injection E as <- <-. destruct (decide (k = k)); [reflexivity|congruence].
    + destruct (decide (k0 = k)) as [->|Hne].
      * exfalso. apply Hk0. apply list_elem_of_In, in_map_iff.
        exists (k, v). split; [reflexivity|]. apply list_elem_of_In, Hin.
      * rewrite (IH Hd Hin). reflexivity.
Qed.

Lemma dict_update_keys (other d : pydict) (k : pystr) :
  k ∈ map fst (dict_update d other) <-> k ∈ map fst d \/ k ∈ map fst other.
Proof.
  unfold dict_update. revert d.
  induction other as [|[k0 v0] other IH]; intros d; simpl.
  - rewrite elem_of_nil. tauto.
  - rewrite IH, dict_set_keys, elem_of_cons. tauto.
Qed.

Lemma dict_update_NoDup (other d : pydict) :
  NoDup (map fst d) -> NoDup (map fst (dict_update d other)).
Proof.
  unfold dict_update. revert d.
  induction other as [|[k0 v0] other IH]; intros d Hd; simpl; [exact Hd|].
  apply IH, dict_set_NoDup, Hd.
Qed.

Lemma dict_get_absent (d : pydict) (k : pystr) :
  k ∉ map fst d -> dict_get d k = None.
Proof.
  induction d as [|[k0 v0] d IH]; simpl; intros Hk; [reflexivity|].
  rewrite not_elem_of_cons in Hk. destruct Hk as [Hne Hk].
  destruct (decide (k0 = k)); [congruence|]. apply IH, Hk.
Qed.

Lemma dict_get_update_other (other d : pydict) (k : pystr) :
  k ∉ map fst other -> dict_get (dict_update d other) k = dict_get d k.
Proof.
  unfold dict_update. revert d.
  induction other as [|[k0 v0] other IH]; intros d Hk; simpl; [reflexivity|].
  simpl in Hk. rewrite not_elem_of_cons in Hk. destruct Hk as [Hne Hk].
  rewrite (IH _ Hk), dict_get_set.
  destruct (decide (k0 = k)); [congruence|reflexivity].
Qed.

Lemma dict_update_included (other d : pydict) :
  NoDup (map fst d) -> (forall kv, kv ∈ other -> kv ∈ d) ->
  dict_update d other = d.
Proof.
  unfold dict_update. intros Hd.
  induction other as [|[k0 v0] other IH]; intros Hin; simpl; [reflexivity|].
  rewrite dict_set_present; [|exact Hd|apply Hin; left].
  apply IH. intros kv Hkv. apply Hin. right. exact Hkv.
Qed.

Lemma dict_update_self (d : pydict) :
  NoDup (map fst d) -> dict_update d d = d.
Proof. intros Hd. apply dict_update_included; auto. Qed.

Lemma loaded_keys (members : list (pystr * json)) (k : pystr) :
  k ∈ map fst (loaded members) -> k ∈ map fst members.
Proof.
  unfold loaded. simpl. rewrite dict_update_keys. intros [H|H].
  - apply elem_of_nil in H. contradiction.
  - rewrite map_map in H.
    erewrite map_ext in H; [exact H|]. intros [k0 v0]. reflexivity.
Qed.

Lemma loaded_NoDup (members : list (pystr * json)) :
  NoDup (map fst (loaded members)).
Proof. unfold loaded. simpl. apply dict_update_NoDup. constructor. Qed.

(** ** The configuration loader *)

Lemma load_config_absent_file :
  load_config Missing = default_config /\ load_config Undecodable = default_config.
Proof. split; reflexivity. Qed.

(** A key the file does not give at the top level keeps its default. *)
Lemma load_config_top_level_default (members : list (pystr * json)) (k : pystr) :
  k ∉ map fst members ->
  dict_get (load_config (Object members)) k = dict_get default_config k.
Proof.
  intros Hk. unfold load_config.
  assert (Hl : k ∉ map fst (loaded members)).
  { intros H. apply Hk, loaded_keys, H. }
  pose proof (dict_get_update_other (loaded members) default_config k Hl) as Hcfg.
  destruct (dict_get (loaded members) (lit "proxy_settings")) as [v|] eqn:Hps;
    [|exact Hcfg].
  destruct v; try exact Hcfg.
  unfold update_proxy_settings.
  destruct (dict_get (dict_update default_config (loaded members))
              (lit "proxy_settings")) as [w|]; [|exact Hcfg].
  destruct w; try exact Hcfg.
  rewrite dict_get_set.
  destruct (decide (lit "proxy_settings" = k)) as [<-|]; [|exact Hcfg].
  rewrite (dict_get_absent _ _ Hl) in Hps. discriminate.
Qed.

Lemma update_proxy_settings_installed (installed other : pydict) :
  update_proxy_settings
    [(lit "interval_minutes", JInt 5); (lit "proxy_settings", JObj installed)]
    other
  = Returns [(lit "interval_minutes", JInt 5);
             (lit "proxy_settings", JObj (dict_update installed other))].
Proof. vm_compute. reflexivity. Qed.

(** A file that gives only [proxy_settings], as an object: the loader
    returns this object as the proxy settings, with nothing added to
    it.  Line 141 has put the loaded object in the place of the default
    one, so line 143 updates the loaded object with itself. *)
Lemma load_config_proxy_replaced (proxy : list (pystr * json)) :
  load_config (Object [(lit "proxy_settings", JObj proxy)])
  = [(lit "interval_minutes", JInt 5);
     (lit "proxy_settings", JObj (loaded proxy))].
Proof.
  unfold load_config.
  assert (Hl : loaded [(lit "proxy_settings", JObj proxy)]
               = [(lit "proxy_settings", JObj (loaded proxy))]) by reflexivity.
  rewrite Hl. generalize (loaded_NoDup proxy).
  generalize (loaded proxy). intros installed Hnd.
  assert (Hu : dict_update default_config
                 [(lit "proxy_settings", JObj installed)]
               = [(lit "interval_minutes", JInt 5);
                  (lit "proxy_settings", JObj installed)])
    by (vm_compute; reflexivity).
  rewrite Hu.
  assert (Hg : dict_get [(lit "proxy_settings", JObj installed)]
                 (lit "proxy_settings") = Some (JObj installed))
    by (vm_compute; reflexivity).
  rewrite Hg, update_proxy_settings_installed, (dict_update_self _ Hnd).
  reflexivity.
Qed.

(** C9. On a file that holds [{"proxy_settings": {"enabled": true}}]
    the loader returns the default interval and, as proxy settings, the
    object of the file alone: no [server], [username] or [password],
    which the defaults do have. *)
Theorem load_config_loses_proxy_defaults :
  load_config (Object only_enabled)
  = [(lit "interval_minutes", JInt 5);
     (lit "proxy_settings", JObj [(lit "enabled", JBool true)])]
  /\ proxy_setting (load_config (Object only_enabled)) (lit "server") = None
  /\ proxy_setting (load_config (Object only_enabled)) (lit "username") = None
  /\ proxy_setting (load_config (Object only_enabled)) (lit "password") = None
  /\ proxy_setting default_config (lit "server") = Some (JStr (lit ""))
  /\ proxy_setting default_config (lit "username") = Some (JStr (lit ""))
  /\ proxy_setting default_config (lit "password") = Some (JStr (lit "")).
Proof. repeat split; vm_compute; reflexivity. Qed.


(** * Further properties *)

(** ** Every state of a run *)

Lemma loop_body_outcome (st : Locals) (p : Pass) (st' : Locals) :
  loop_body st p = Continue st' \/ loop_body st p = Break st' ->
  let seen := fold_left visit_row (visible_rows p) st in
  data_list st' = data_list seen
  /\ unique_names st' = unique_names seen
  /\ wheels st' = S (wheels st)
  /\ (attempt st' = attempt st
      \/ (0 < attempt st /\ attempt st' = attempt st - 1)).
Proof.
  intros Hb seen.
  pose proof (loop_body_cases st p) as Hc. simpl in Hc. fold seen in Hc.
  destruct (visit_rows_control (visible_rows p) st) as (_ & _ & Ha & Hw).
  fold seen in Ha, Hw.
  destruct (reached_end st (scrollY (after_wheel p)));
    [destruct (Z.leb_spec (attempt st) 0)|];
    rewrite Hc in Hb; destruct Hb as [Hb|Hb]; try discriminate;
    injection Hb as <-; simpl; repeat split; auto; try congruence.
  right. split; [lia|congruence].
Qed.

Lemma trajectory_Forall (P : Locals -> Prop) :
  (forall st p st',
      P st -> loop_body st p = Continue st' \/ loop_body st p = Break st' ->
      P st') ->
  forall passes st, P st -> Forall P (trajectory st passes).
Proof.
  intros Hstep. induction passes as [|p rest IH]; intros st Hst.
  - simpl. repeat constructor. exact Hst.
  - destruct (trajectory_cons st p rest) as (st' & rest' & -> & Hcase).
    constructor; [exact Hst|].
    assert (Hst' : P st').
    { apply (Hstep st p st' Hst). destruct Hcase as [[E _]|[E _]]; auto. }
    destruct Hcase as [[_ ->]|[_ ->]]; [apply IH, Hst'|].
    simpl. repeat constructor. exact Hst'.
Qed.

Lemma trajectory_related (R : Locals -> Locals -> Prop) :
  (forall st, R st st) ->
  (forall a b c, R a b -> R b c -> R a c) ->
  (forall st p st',
      loop_body st p = Continue st' \/ loop_body st p = Break st' ->
      R st st') ->
  forall passes st0 i j st st',
    (i <= j)%nat ->
    trajectory st0 passes !! i = Some st ->
    trajectory st0 passes !! j = Some st' ->
    R st st'.
Proof.
  intros Hrefl Htrans Hstep.
  assert (Hfirst : forall passes st0, Forall (R st0) (trajectory st0 passes)).
  { induction passes as [|p rest IH]; intros st0.
    - simpl. repeat constructor. apply Hrefl.
    - destruct (trajectory_cons st0 p rest) as (st1 & rest' & -> & Hcase).
      constructor; [apply Hrefl|].
      assert (H01 : R st0 st1).
      { apply (Hstep st0 p). destruct Hcase as [[E _]|[E _]]; auto. }
      assert (Hall : Forall (R st1) (trajectory st1 rest')).
      { destruct Hcase as [[_ ->]|[_ ->]]; [apply IH|].
        simpl. repeat constructor. apply Hrefl. }
      eapply Forall_impl; [exact Hall|]. intros x Hx.
      exact (Htrans _ _ _ H01 Hx). }
  induction passes as [|p rest IH]; intros st0 i j st st' Hij Hi Hj.
  - destruct i, j; simpl in Hi, Hj; try discriminate.
    injection Hi as <-. injection Hj as <-. apply Hrefl.
  - destruct i as [|i].
    + simpl in Hi. injection Hi as <-.
      pose proof (Hfirst (p :: rest) st0) as Hall.
      rewrite Forall_lookup in Hall. exact (Hall j st' Hj).
    + destruct j as [|j]; [lia|].
      destruct (trajectory_cons st0 p rest) as (st1 & rest' & Htr & Hcase).
      rewrite Htr in Hi, Hj. simpl in Hi, Hj.
      destruct Hcase as [[_ ->]|[_ ->]].
      * apply (IH st1 i j); [lia|assumption|assumption].
      * destruct i, j; simpl in Hi, Hj; try discriminate.
        injection Hi as <-. injection Hj as <-. apply Hrefl.
Qed.

Lemma offer_accumulator_ok (st : Locals) (e : option chain_data) :
  accumulator_ok st -> accumulator_ok (offer st e).
Proof.
  intros (Hnd & Hna & Hm). destruct e as [d|]; [|repeat split; auto; apply Hm].
  destruct (decide (Name d <> NA /\ Name d ∉ unique_names st)) as [[H1 H2]|H].
  - rewrite (offer_appends _ _ H1 H2). unfold accumulator_ok. simpl.
    rewrite map_app. simpl.
    assert (Hnew : Name d ∉ map Name (data_list st)) by (rewrite <- Hm; exact H2).
    split; [|split].
    + apply NoDup_app. split; [exact Hnd|]. split.
      * intros x Hx Hx'. apply list_elem_of_singleton in Hx'. congruence.
      * repeat constructor. apply not_elem_of_nil.
    + rewrite elem_of_app, list_elem_of_singleton. intros [E|E]; [tauto|congruence].
    + intros n. rewrite elem_of_union, elem_of_singleton, elem_of_app,
        list_elem_of_singleton, Hm. tauto.
  - rewrite (offer_rejects _ _ H). repeat split; auto; apply Hm.
Qed.

Lemma offer_extends (st : Locals) (e : option chain_data) :
  extends st (offer st e).
Proof.
  split; [apply offer_prefix|].
  destruct e as [d|]; [|reflexivity].
  destruct (decide (Name d <> NA /\ Name d ∉ unique_names st)) as [[H1 H2]|H].
  - rewrite (offer_appends _ _ H1 H2). simpl. apply union_subseteq_r.
  - rewrite (offer_rejects _ _ H). reflexivity.
Qed.

Lemma extends_refl (st : Locals) : extends st st.
Proof. split; reflexivity. Qed.

Lemma extends_trans (a b c : Locals) : extends a b -> extends b c -> extends a c.
Proof. intros [H1 H2] [H3 H4]. split; etrans; eassumption. Qed.

Lemma visit_rows_accumulator (rows : list RowLocator) (st : Locals) :
  (accumulator_ok st -> accumulator_ok (fold_left visit_row rows st))
  /\ extends st (fold_left visit_row rows st).
Proof.
  revert st. induction rows as [|r rows IH]; intros st; simpl.
  - split; [auto|apply extends_refl].
  - assert (Hstep : (accumulator_ok st -> accumulator_ok (visit_row st r))
                    /\ extends st (visit_row st r)).
    { unfold visit_row. destruct (0 <? chain_links r)%nat.
      - split; [apply offer_accumulator_ok|apply offer_extends].
      - split; [auto|apply extends_refl]. }
    destruct Hstep as [Hok Hext]. destruct (IH (visit_row st r)) as [IHok IHext].
    split; [auto|]. exact (extends_trans _ _ _ Hext IHext).
Qed.

Lemma loop_body_accumulator (st : Locals) (p : Pass) (st' : Locals) :
  loop_body st p = Continue st' \/ loop_body st p = Break st' ->
  (accumulator_ok st -> accumulator_ok st') /\ extends st st'.
Proof.
  intros Hb. destruct (loop_body_outcome st p st' Hb) as (Hd & Hu & _).
  destruct (visit_rows_accumulator (visible_rows p) st) as [Hok Hext].
  unfold accumulator_ok, extends in *. rewrite Hd, Hu. split; assumption.
Qed.

(** X1. At the start of every pass of a run, and when the loop is
    left, the retry counter is between 0 and 3. *)
Theorem attempt_stays_within_budget (page0 : PageMetrics) (passes : list Pass) :
  Forall (fun st => 0 <= attempt st <= 3) (trajectory (init_locals page0) passes).
Proof.
  apply trajectory_Forall; [|simpl; lia].
  intros st p st' Hst Hb.
  destruct (loop_body_outcome st p st' Hb) as (_ & _ & _ & Ha). lia.
Qed.

(** X2. At every moment of a run, not only at its end, the rows
    collected so far carry pairwise different Names, none is named
    ["N/A"], and [unique_names] is exactly the set of their Names. *)
Theorem accumulator_ok_throughout (page0 : PageMetrics) (passes : list Pass) :
  Forall accumulator_ok (trajectory (init_locals page0) passes).
Proof.
  apply trajectory_Forall.
  - intros st p st' Hst Hb. exact (proj1 (loop_body_accumulator st p st' Hb) Hst).
  - unfold accumulator_ok. simpl. split; [constructor|].
    split; [apply not_elem_of_nil|].
    intros n. rewrite elem_of_empty, elem_of_nil. tauto.
Qed.

(** X3. From one pass of a run to any later one, the rows collected are
    kept where they are: the earlier [data_list] is a prefix of the
    later one, and no Name leaves [unique_names]. *)
Theorem collected_rows_are_kept (page0 : PageMetrics) (passes : list Pass)
    (i j : nat) (st st' : Locals) :
  (i <= j)%nat ->
  trajectory (init_locals page0) passes !! i = Some st ->
  trajectory (init_locals page0) passes !! j = Some st' ->
  data_list st `prefix_of` data_list st'
  /\ unique_names st ⊆ unique_names st'.
Proof.
  apply (trajectory_related extends extends_refl extends_trans).
  intros s p s' Hb. exact (proj2 (loop_body_accumulator s p s' Hb)).
Qed.

Lemma collected_rows_are_kept_witness :
  data_list {| page_height := 1000; window_height := 600;
               data_list := [extracted "A" "10" "$1b"; extracted "B" "7" "$2b"];
               unique_names := {[ lit "A"; lit "B" ]};
               attempt := 2; wheels := 2 |}
    `prefix_of` data_list uneven_final
  /\ unique_names {| page_height := 1000; window_height := 600;
                     data_list := [extracted "A" "10" "$1b"; extracted "B" "7" "$2b"];
                     unique_names := {[ lit "A"; lit "B" ]};
                     attempt := 2; wheels := 2 |}
     ⊆ unique_names uneven_final.
Proof.
  apply (collected_rows_are_kept growing_page uneven_passes 2 6).
  - lia.
  - vm_compute. reflexivity.
  - vm_compute. reflexivity.
Defined.

(** ** When the loop is left *)

Lemma end_readings_le_length (page0 : PageMetrics) (passes : list Pass) :
  (end_readings page0 passes <= length passes)%nat.
Proof.
  induction passes as [|p rest IH]; simpl; [lia|].
  destruct (end_reading page0 p); lia.
Qed.

Lemma scrape_loop_leaves (page0 : PageMetrics) (passes : list Pass)
    (st st' : Locals) :
  started_from page0 st -> 0 <= attempt st ->
  scrape_loop st passes = Some st' ->
  exists n p,
    wheels st' = (wheels st + S n)%nat
    /\ passes !! n = Some p
    /\ end_reading page0 p = true
    /\ Z.of_nat (end_readings page0 (take n passes)) = attempt st
    /\ attempt st' = 0.
Proof.
  revert st. induction passes as [|p0 rest IH]; intros st Hs Ha Hrun;
    [discriminate|].
  simpl in Hrun. destruct (end_reading page0 p0) eqn:He.
  - destruct (Z.le_gt_cases (attempt st) 0) as [H0|H0].
    + destruct (loop_body_break _ _ _ Hs He H0) as (st1 & Hb & _ & Hat & Hw).
      rewrite Hb in Hrun. injection Hrun as <-.
      exists 0%nat, p0. simpl. repeat split; auto; lia.
    + destruct (loop_body_retry _ _ _ Hs He H0) as (st1 & Hb & Hs1 & Hat & Hw).
      rewrite Hb in Hrun.
      destruct (IH st1 Hs1 ltac:(lia) Hrun) as (n & p & Hw' & Hp & Hep & Hc & Hz).
      exists (S n), p. simpl. rewrite He. repeat split; auto; lia.
  - destruct (loop_body_scanning _ _ _ Hs He) as (st1 & Hb & Hs1 & Hat & Hw).
    rewrite Hb in Hrun.
    destruct (IH st1 Hs1 ltac:(lia) Hrun) as (n & p & Hw' & Hp & Hep & Hc & Hz).
    exists (S n), p. simpl. rewrite He. repeat split; auto; lia.
Qed.

(** X4. A run leaves the loop on the fourth reading at the end of the
    page counted over the whole run, whether or not these readings
    follow one another: the pass it leaves on read the end, exactly
    three passes before it did, the counter is 0, and at least four
    wheel events were sent. *)
Theorem loop_leaves_on_fourth_end_reading
    (page0 : PageMetrics) (passes : list Pass) (st : Locals) :
  scrape_loop (init_locals page0) passes = Some st ->
  (exists p, passes !! (wheels st - 1)%nat = Some p
             /\ end_reading page0 p = true)
  /\ end_readings page0 (take (wheels st - 1) passes) = 3%nat
  /\ (4 <= wheels st <= length passes)%nat
  /\ attempt st = 0.
Proof.
  intros Hrun.
  destruct (scrape_loop_leaves page0 passes _ st (init_started page0)
              ltac:(simpl; lia) Hrun) as (n & p & Hw & Hp & He & Hc & Hz).
  simpl in Hw, Hc. rewrite Hw.
  replace (S n - 1)%nat with n by lia.
  pose proof (lookup_lt_Some _ _ _ Hp) as Hlen.
  pose proof (end_readings_le_length page0 (take n passes)) as Hle.
  rewrite length_take in Hle.
  split; [exists p; auto|]. split; [lia|]. split; [lia|exact Hz].
Qed.

Lemma loop_leaves_on_fourth_end_reading_witness :
  (exists p, uneven_passes !! (wheels uneven_final - 1)%nat = Some p
             /\ end_reading growing_page p = true)
  /\ end_readings growing_page (take (wheels uneven_final - 1) uneven_passes)
     = 3%nat
  /\ (4 <= wheels uneven_final <= length uneven_passes)%nat
  /\ attempt uneven_final = 0.
Proof.
  apply (loop_leaves_on_fourth_end_reading growing_page uneven_passes uneven_final).
  vm_compute. reflexivity.
Defined.

(** X5. A run returns a result exactly when at least four readings of
    the passes are at the end of the page; with fewer it is still in
    the loop, however many passes there are. *)
Theorem scrape_data_returns_iff (now : datetime) (page0 : PageMetrics)
    (passes : list Pass) :
  (exists result, scrape_data now page0 passes = Some result)
  <-> (4 <= end_readings page0 passes)%nat.
Proof.
  destruct (scrape_loop_returns page0 passes _ (init_started page0)
              ltac:(simpl; lia)) as [Hnone Hsome].
  simpl in Hnone, Hsome. unfold scrape_data. split.
  - intros [result Hres].
    destruct (Nat.le_gt_cases 4 (end_readings page0 passes)) as [H|H]; [exact H|].
    rewrite Hnone in Hres by lia. discriminate.
  - intros H. destruct Hsome as [st ->]; [lia|]. eexists. reflexivity.
Qed.

(** ** Which rows a run collects *)

Lemma first_rows_snoc_new (rows : list chain_data) (d : chain_data) :
  Name d ∉ map Name rows -> first_rows (rows ++ [d]) = first_rows rows ++ [d].
Proof.
  induction rows as [|e rows IH]; simpl; intros Hin; [reflexivity|].
  rewrite not_elem_of_cons in Hin. destruct Hin as [Hne Hin].
  rewrite (IH Hin), filter_app, filter_cons_True by assumption.
  reflexivity.
Qed.

Lemma first_rows_snoc_old (rows : list chain_data) (d : chain_data) :
  Name d ∈ map Name rows -> first_rows (rows ++ [d]) = first_rows rows.
Proof.
  induction rows as [|e rows IH]; simpl; intros Hin.
  - apply elem_of_nil in Hin. contradiction.
  - f_equal. destruct (decide (Name d ∈ map Name rows)) as [Hd|Hd].
    + rewrite IH by assumption. reflexivity.
    + apply elem_of_cons in Hin as [E|Hin]; [|contradiction].
      rewrite (first_rows_snoc_new _ _ Hd), filter_app.
      rewrite filter_cons_False by tauto.
      apply app_nil_r.
Qed.

Lemma first_rows_elem_of (rows : list chain_data) (d : chain_data) :
  d ∈ first_rows rows -> d ∈ rows.
Proof.
  revert d. induction rows as [|e rows IH]; simpl; intros d Hd; [exact Hd|].
  apply elem_of_cons in Hd as [->|Hd]; [left|].
  apply list_elem_of_filter in Hd as [_ Hd]. right. apply IH, Hd.
Qed.

Lemma first_rows_names (rows : list chain_data) (n : pystr) :
  n ∈ map Name (first_rows rows) <-> n ∈ map Name rows.
Proof.
  induction rows as [|e rows IH]; simpl; [reflexivity|].
  rewrite !elem_of_cons, <- IH.
  change (map Name (filter (fun e0 => Name e0 <> Name e) (first_rows rows)))
    with (Name <$> filter (fun e0 => Name e0 <> Name e) (first_rows rows)).
  change (map Name (first_rows rows)) with (Name <$> first_rows rows).
  rewrite !list_elem_of_fmap. split.
  - intros [->|(d & -> & Hd)]; [tauto|].
    apply list_elem_of_filter in Hd as [_ Hd]. right. exists d. tauto.
  - intros [->|(d & -> & Hd)]; [tauto|].
    destruct (decide (Name d = Name e)) as [E|E]; [tauto|].
    right. exists d. split; [reflexivity|]. apply list_elem_of_filter. tauto.
Qed.

Lemma offered_row_elem_of (row_locator : RowLocator) (d : chain_data) :
  d ∈ offered_row row_locator
  <-> (0 < chain_links row_locator)%nat
      /\ extract_data_from_row row_locator = Some d /\ Name d <> NA.
Proof.
  unfold offered_row.
  destruct (Nat.ltb_spec 0 (chain_links row_locator)) as [Hl|Hl].
  - destruct (extract_data_from_row row_locator) as [e|].
    + destruct (decide (Name e <> NA)) as [Hn|Hn].
      * rewrite list_elem_of_singleton. split.
        -- intros ->. tauto.
        -- intros (_ & [= ->] & _). reflexivity.
      * rewrite elem_of_nil. split; [tauto|].
        intros (_ & [= ->] & H). tauto.
    + rewrite elem_of_nil. split; [tauto|]. intros (_ & H & _). discriminate.
  - rewrite elem_of_nil. split; [tauto|]. intros (H & _). lia.
Qed.

Lemma visit_row_rows (st : Locals) (offered : list chain_data)
    (row_locator : RowLocator) :
  data_list st = first_rows offered ->
  (forall n, n ∈ unique_names st <-> n ∈ map Name offered) ->
  data_list (visit_row st row_locator)
  = first_rows (offered ++ offered_row row_locator)
  /\ (forall n, n ∈ unique_names (visit_row st row_locator)
                <-> n ∈ map Name (offered ++ offered_row row_locator)).
Proof.
  intros Hl Hs. unfold visit_row, offered_row.
  destruct (0 <? chain_links row_locator)%nat;
    [|rewrite app_nil_r; split; assumption].
  destruct (extract_data_from_row row_locator) as [d|]; simpl;
    [|rewrite app_nil_r; split; assumption].
  destruct (decide (Name d <> NA)); [|rewrite app_nil_r; split; assumption].
  destruct (decide (Name d ∉ unique_names st)) as [Hnew|Hold].
  - split; simpl.
    + rewrite Hl. symmetry. apply first_rows_snoc_new. rewrite <- Hs. exact Hnew.
    + intros m. rewrite map_app. simpl.
      rewrite elem_of_union, elem_of_singleton, elem_of_app,
        list_elem_of_singleton, Hs. tauto.
  - assert (Hin : Name d ∈ map Name offered).
    { apply Hs. destruct (decide (Name d ∈ unique_names st)); tauto. }
    split.
    + rewrite Hl. symmetry. apply first_rows_snoc_old, Hin.
    + intros m. rewrite map_app. simpl.
      rewrite elem_of_app, list_elem_of_singleton, Hs.
      split; [tauto|]. intros [H| ->]; assumption.
Qed.

Lemma visit_rows_rows (rows : list RowLocator) (st : Locals)
    (offered : list chain_data) :
  data_list st = first_rows offered ->
  (forall n, n ∈ unique_names st <-> n ∈ map Name offered) ->
  data_list (fold_left visit_row rows st)
  = first_rows (offered ++ flat_map offered_row rows)
  /\ (forall n, n ∈ unique_names (fold_left visit_row rows st)
                <-> n ∈ map Name (offered ++ flat_map offered_row rows)).
Proof.
  revert st offered. induction rows as [|r rows IH]; intros st offered Hl Hs; simpl.
  - rewrite app_nil_r. split; assumption.
  - rewrite app_assoc.
    destruct (visit_row_rows st offered r Hl Hs) as [Hl' Hs'].
    exact (IH _ _ Hl' Hs').
Qed.

Lemma scrape_loop_rows (passes : list Pass) (st st' : Locals)
    (offered : list chain_data) :
  data_list st = first_rows offered ->
  (forall n, n ∈ unique_names st <-> n ∈ map Name offered) ->
  scrape_loop st passes = Some st' ->
  (wheels st < wheels st')%nat
  /\ data_list st'
     = first_rows
         (offered ++ flat_map pass_rows (take (wheels st' - wheels st) passes)).
Proof.
  revert st offered. induction passes as [|p rest IH]; intros st offered Hl Hs Hrun;
    simpl in Hrun; [discriminate|].
  destruct (visit_rows_rows (visible_rows p) st offered Hl Hs) as [Hl1 Hs1].
  destruct (loop_body st p) as [st1|st1] eqn:Hb.
  - destruct (loop_body_outcome st p st1 (or_introl Hb)) as (Hd & Hu & Hw & _).
    simpl in Hd, Hu. rewrite <- Hd in Hl1. rewrite <- Hu in Hs1.
    destruct (IH st1 _ Hl1 Hs1 Hrun) as [Hlt Hl']. split; [lia|].
    replace (wheels st' - wheels st)%nat with (S (wheels st' - wheels st1)) by lia.
    simpl. rewrite app_assoc. exact Hl'.
  - destruct (loop_body_outcome st p st1 (or_intror Hb)) as (Hd & Hu & Hw & _).
    simpl in Hd. injection Hrun as <-. rewrite Hw. split; [lia|].
    replace (S (wheels st) - wheels st)%nat with 1%nat by lia.
    simpl. rewrite app_nil_r, Hd. exact Hl1.
Qed.

Lemma scrape_loop_rows_init (page0 : PageMetrics) (passes : list Pass)
    (st : Locals) :
  scrape_loop (init_locals page0) passes = Some st ->
  data_list st = first_rows (flat_map pass_rows (take (wheels st) passes)).
Proof.
  intros Hrun.
  destruct (scrape_loop_rows passes (init_locals page0) st [] eq_refl) as [_ H];
    [|exact Hrun|].
  - intros n. simpl. rewrite elem_of_empty, elem_of_nil. tauto.
  - simpl in H. rewrite Nat.sub_0_r in H. exact H.
Qed.

(** X6. The [data_list] of a run is the sequence of the rows its passes
    extracted from chain rows (Name other than ["N/A"]), with, for every
    Name, only the first of these rows: when a chain is met again, also
    with other Protocols or TVL, the entry of its first sighting stays. *)
Theorem data_list_keeps_first_sighting (page0 : PageMetrics)
    (passes : list Pass) (st : Locals) :
  scrape_loop (init_locals page0) passes = Some st ->
  data_list st = first_rows (flat_map pass_rows (take (wheels st) passes)).
Proof. apply scrape_loop_rows_init. Qed.

Lemma data_list_keeps_first_sighting_witness :
  data_list uneven_final
  = first_rows (flat_map pass_rows (take (wheels uneven_final) uneven_passes)).
Proof.
  apply (data_list_keeps_first_sighting growing_page uneven_passes uneven_final).
  vm_compute. reflexivity.
Defined.

(** X7. Every entry of the [data_list] of a run is what the extractor
    returned for a row that one of the passes that ran found rendered,
    a row with a chain link and a Name other than ["N/A"]: nothing else
    gets into the result. *)
Theorem collected_rows_were_rendered (page0 : PageMetrics)
    (passes : list Pass) (st : Locals) (d : chain_data) :
  scrape_loop (init_locals page0) passes = Some st ->
  d ∈ data_list st ->
  exists p row_locator,
    p ∈ take (wheels st) passes
    /\ row_locator ∈ visible_rows p
    /\ (0 < chain_links row_locator)%nat
    /\ extract_data_from_row row_locator = Some d
    /\ Name d <> NA.
Proof.
  intros Hrun Hd. rewrite (scrape_loop_rows_init page0 passes st Hrun) in Hd.
  apply first_rows_elem_of, list_elem_of_In, in_flat_map in Hd as (p & Hp & Hd).
  apply in_flat_map in Hd as (r & Hr & Hd).
  apply list_elem_of_In, offered_row_elem_of in Hd.
  exists p, r. rewrite !list_elem_of_In. tauto.
Qed.

Lemma collected_rows_were_rendered_witness :
  exists p row_locator,
    p ∈ take (wheels uneven_final) uneven_passes
    /\ row_locator ∈ visible_rows p
    /\ (0 < chain_links row_locator)%nat
    /\ extract_data_from_row row_locator = Some (extracted "C" "3" "$3b")
    /\ Name (extracted "C" "3" "$3b") <> NA.
Proof.
  apply (collected_rows_were_rendered growing_page uneven_passes uneven_final).
  - vm_compute. reflexivity.
  - apply list_elem_of_In. simpl. tauto.
Defined.

(** X8. No chain is missed among the rows the loop looked at: when a
    pass that ran found a row with a chain link for which the extractor
    returned a dict with a Name other than ["N/A"], the [data_list] of
    the run has an entry with this Name. *)
Theorem rendered_chains_are_collected (page0 : PageMetrics)
    (passes : list Pass) (st : Locals) (p : Pass) (row_locator : RowLocator)
    (d : chain_data) :
  scrape_loop (init_locals page0) passes = Some st ->
  p ∈ take (wheels st) passes ->
  row_locator ∈ visible_rows p ->
  (0 < chain_links row_locator)%nat ->
  extract_data_from_row row_locator = Some d ->
  Name d <> NA ->
  Name d ∈ map Name (data_list st).
Proof.
  intros Hrun Hp Hr Hl He Hn.
  rewrite (scrape_loop_rows_init page0 passes st Hrun), first_rows_names.
  apply list_elem_of_In, in_map, in_flat_map. exists p.
  split; [apply list_elem_of_In, Hp|].
  apply in_flat_map. exists row_locator.
  split; [apply list_elem_of_In, Hr|].
  apply list_elem_of_In, offered_row_elem_of. tauto.
Qed.

Lemma rendered_chains_are_collected_witness :
  Name (extracted "A" "11" "$9b") ∈ map Name (data_list uneven_final).
Proof.
  apply (rendered_chains_are_collected growing_page uneven_passes uneven_final
           (at_scroll [chain_row "A" "11" "$9b"] 400 1000)
           (chain_row "A" "11" "$9b")).
  - vm_compute. reflexivity.
  - apply list_elem_of_In. simpl. tauto.
  - apply list_elem_of_In. simpl. tauto.
  - simpl. lia.
  - reflexivity.
  - discriminate.
Defined.

(** ** The row extractor, cell by cell *)

Lemma read_cell (e : Locator) :
  (cell_fails e = true
   /\ (let! x := text_or_NA e in strip_method x) = Raises)
  \/ (cell_fails e = false
      /\ exists field, (let! x := text_or_NA e in strip_method x) = Returns field
                       /\ cell_reads e field).
Proof.
  unfold cell_fails, text_or_NA, cell_reads.
  destruct (is_visible e) as [[|]|]; simpl.
  - destruct (text_content e) as [[text|]|]; simpl; auto.
    right. split; [reflexivity|]. exists (strip text). split; [reflexivity|].
    right. exists text. auto.
  - right. split; [reflexivity|]. exists (strip NA). split; [reflexivity|].
    left. auto.
  - auto.
Qed.

Lemma bind_assoc {A B C : Type} (m : outcome A) (f : A -> outcome B)
    (k : B -> outcome C) :
  (let! y := (let! x := m in f x) in k y) = (let! x := m in let! y := f x in k y).
Proof. destruct m; reflexivity. Qed.

Lemma extract_try_cells (row_locator : RowLocator) :
  extract_try row_locator
  = let! name := (let! x := text_or_NA (name_element row_locator) in strip_method x) in
    let! protocols := (let! x := text_or_NA (protocols_element row_locator) in strip_method x) in
    let! tvl := (let! x := text_or_NA (tvl_element row_locator) in strip_method x) in
    Returns {| Name := name; Protocols := protocols; TVL := tvl |}.
Proof.
  unfold extract_try. rewrite !bind_assoc.
  destruct (text_or_NA (name_element row_locator)) as [x|]; [|reflexivity].
  simpl. destruct (strip_method x); [|reflexivity]. simpl.
  rewrite !bind_assoc.
  destruct (text_or_NA (protocols_element row_locator)) as [y|]; [|reflexivity].
  simpl. destruct (strip_method y); [|reflexivity]. simpl.
  rewrite !bind_assoc. reflexivity.
Qed.

Lemma extract_cells (row_locator : RowLocator) :
  (extract_data_from_row row_locator = None
   /\ (cell_fails (name_element row_locator) = true
       \/ cell_fails (protocols_element row_locator) = true
       \/ cell_fails (tvl_element row_locator) = true))
  \/ (exists d, extract_data_from_row row_locator = Some d
        /\ cell_fails (name_element row_locator) = false
        /\ cell_fails (protocols_element row_locator) = false
        /\ cell_fails (tvl_element row_locator) = false
        /\ cell_reads (name_element row_locator) (Name d)
        /\ cell_reads (protocols_element row_locator) (Protocols d)
        /\ cell_reads (tvl_element row_locator) (TVL d)).
Proof.
  unfold extract_data_from_row. rewrite extract_try_cells.
  destruct (read_cell (name_element row_locator)) as [[F1 ->]|(F1 & n & -> & R1)];
    [left; auto|]. simpl.
  destruct (read_cell (protocols_element row_locator))
    as [[F2 ->]|(F2 & q & -> & R2)]; [left; auto|]. simpl.
  destruct (read_cell (tvl_element row_locator)) as [[F3 ->]|(F3 & t & -> & R3)];
    [left; auto|]. simpl.
  right. eexists. split; [reflexivity|]. simpl. auto 10.
Qed.

Lemma strip_no_outer_space (text : pystr) : no_outer_space (strip text).
Proof.
  destruct (strip_trimmed text) as (l & r & _ & _ & _ & Hh & Hl).
  split; assumption.
Qed.

Lemma cell_reads_no_outer_space (e : Locator) (field : pystr) :
  cell_reads e field -> no_outer_space field.
Proof.
  intros [[_ ->]|(text & _ & _ & ->)].
  - change NA with (strip NA). apply strip_no_outer_space.
  - apply strip_no_outer_space.
Qed.

(** X9. The extractor returns [None] exactly when reading one of the
    three cells raises: [is_visible] raises, or the cell is visible and
    [text_content] raises or gives no text.  One such cell loses the
    whole row, whatever the other two hold. *)
Theorem extract_fails_iff_a_cell_fails (row_locator : RowLocator) :
  extract_data_from_row row_locator = None
  <-> cell_fails (name_element row_locator) = true
      \/ cell_fails (protocols_element row_locator) = true
      \/ cell_fails (tvl_element row_locator) = true.
Proof.
  destruct (extract_cells row_locator)
    as [[-> H]|(d & -> & F1 & F2 & F3 & _)].
  - tauto.
  - rewrite F1, F2, F3. split; [discriminate|]. intros [H|[H|H]]; discriminate.
Qed.

(** X10. In a dict the extractor returns, every field is ["N/A"] when
    its cell is not visible and the stripped text of the cell when it
    is, and no field begins or ends with white space. *)
Theorem extract_reads_every_cell (row_locator : RowLocator) (d : chain_data) :
  extract_data_from_row row_locator = Some d ->
  cell_reads (name_element row_locator) (Name d)
  /\ cell_reads (protocols_element row_locator) (Protocols d)
  /\ cell_reads (tvl_element row_locator) (TVL d)
  /\ no_outer_space (Name d)
  /\ no_outer_space (Protocols d)
  /\ no_outer_space (TVL d).
Proof.
  intros He.
  destruct (extract_cells row_locator)
    as [[Hn _]|(d' & Hd & _ & _ & _ & R1 & R2 & R3)]; [congruence|].
  assert (d' = d) as -> by congruence.
  repeat split; eauto using cell_reads_no_outer_space;
    try (eapply cell_reads_no_outer_space; eassumption).
Qed.

Lemma extract_reads_every_cell_witness :
  cell_reads (name_element row_without_tvl) (lit "Ethereum")
  /\ cell_reads (protocols_element row_without_tvl) (lit "1543")
  /\ cell_reads (tvl_element row_without_tvl) (lit "N/A")
  /\ no_outer_space (lit "Ethereum")
  /\ no_outer_space (lit "1543")
  /\ no_outer_space (lit "N/A").
Proof.
  exact (extract_reads_every_cell row_without_tvl
           {| Name := lit "Ethereum"; Protocols := lit "1543"; TVL := lit "N/A" |}
           eq_refl).
Defined.

(** X11. A row whose Name cell is not visible is never collected: the
    extractor fails on another cell or names the row ["N/A"], and in
    both cases the loop leaves its variables as they are. *)
Theorem row_with_hidden_name_is_skipped (st : Locals) (row_locator : RowLocator) :
  is_visible (name_element row_locator) = Returns false ->
  visit_row st row_locator = st.
Proof.
  intros Hv. unfold visit_row.
  destruct (0 <? chain_links row_locator)%nat; [|reflexivity].
  destruct (extract_cells row_locator)
    as [[-> _]|(d & -> & _ & _ & _ & R1 & _)]; [reflexivity|].
  apply offer_rejects.
  destruct R1 as [[_ E]|(text & E & _)]; [tauto|congruence].
Qed.

Lemma row_with_hidden_name_is_skipped_witness :
  visit_row sample_final
    {| chain_links := 1; name_element := hidden;
       protocols_element := shown "12"; tvl_element := shown "$5b" |}
  = sample_final.
Proof.
  apply (row_with_hidden_name_is_skipped sample_final).
  reflexivity.
Defined.

(** ** The result file over several runs *)

Lemma file_after_runs_list (scraped_results : list pydict) (items : list json) :
  file_after_runs (Some (Loaded (JList items))) scraped_results
  = Some (Loaded (JList (items ++ map JObj scraped_results))).
Proof.
  unfold file_after_runs. revert items.
  induction scraped_results as [|r rs IH]; intros items; simpl.
  - rewrite app_nil_r. reflexivity.
  - change (file_after_run (Some (Loaded (JList items))) r)
      with (Some (Loaded (JList (items ++ [JObj r])))).
    rewrite IH, <- app_assoc. reflexivity.
Qed.

(** X12. Over successive runs whose writes succeed the result file only
    grows: after the first run it holds a list, and every later run
    puts its batch at the end and leaves the earlier entries in place.
    Started without a file, it holds the batches of the runs in their
    order. *)
Theorem result_file_accumulates (output : option file_read)
    (first : pydict) (later : list pydict) :
  file_after_runs output (first :: later)
  = Some (Loaded (JList (main_results output first ++ map JObj later)))
  /\ file_after_runs None (first :: later)
     = Some (Loaded (JList (map JObj (first :: later)))).
Proof.
  split; apply file_after_runs_list.
Qed.

(** ** The configuration, key by key *)

Lemma dict_get_update (other d : pydict) (k : pystr) :
  NoDup (map fst other) ->
  dict_get (dict_update d other) k
  = match dict_get other k with
    | Some v => Some v
    | None => dict_get d k
    end.
Proof.
  unfold dict_update. revert d.
  induction other as [|[k0 v0] other IH]; intros d Hnd; simpl; [reflexivity|].
  simpl in Hnd. apply NoDup_cons in Hnd as [Hk0 Hnd].
  rewrite (IH _ Hnd), dict_get_set.
  destruct (decide (k0 = k)) as [->|Hne]; [|reflexivity].
  rewrite (dict_get_absent _ _ Hk0). reflexivity.
Qed.

Lemma dict_get_elem_of (d : pydict) (k : pystr) (v : json) :
  dict_get d k = Some v -> (k, v) ∈ d.
Proof.
  induction d as [|[k0 v0] d IH]; simpl; [discriminate|].
  destruct (decide (k0 = k)) as [->|Hne].
  - intros [= ->]. left.
  - intros H. right. apply IH, H.
Qed.

Lemma dict_set_values (d : pydict) (k : pystr) (v : json) (kv : pystr * json) :
  kv ∈ dict_set d k v -> kv = (k, v) \/ kv ∈ d.
Proof.
  induction d as [|[k0 v0] d IH]; simpl.
  - rewrite list_elem_of_singleton. tauto.
  - destruct (decide (k0 = k)) as [->|Hne]; rewrite !elem_of_cons; [tauto|].
    intros [H|H]; [tauto|]. destruct (IH H); tauto.
Qed.

Lemma dict_update_values (other d : pydict) (kv : pystr * json) :
  kv ∈ dict_update d other -> kv ∈ d \/ kv ∈ other.
Proof.
  unfold dict_update. revert d.
  induction other as [|[k0 v0] other IH]; intros d; simpl; [tauto|].
  intros H. rewrite elem_of_cons.
  destruct (IH _ H) as [H'|H']; [|tauto].
  destruct (dict_set_values _ _ _ _ H'); tauto.
Qed.

Lemma dict_update_app (d a b : pydict) :
  dict_update d (a ++ b) = dict_update (dict_update d a) b.
Proof. unfold dict_update. apply fold_left_app. Qed.

Lemma loaded_object_NoDup (members : list (pystr * json)) (k : pystr)
    (proxy : list (pystr * json)) :
  dict_get (loaded members) k = Some (JObj proxy) -> NoDup (map fst proxy).
Proof.
  intros H. apply dict_get_elem_of in H. unfold loaded in H. simpl in H.
  apply dict_update_values in H as [H|H]; [apply elem_of_nil in H; contradiction|].
  apply list_elem_of_In, in_map_iff in H as ([k0 v0] & E & _).
  injection E as _ E. destruct v0; simpl in E; try discriminate.
  injection E as <-. apply dict_update_NoDup. constructor.
Qed.

Lemma loaded_last_member (pre post : list (pystr * json)) (k : pystr) (v : json) :
  k ∉ map fst post ->
  dict_get (loaded (pre ++ (k, v) :: post)) k = Some (json_load v).
Proof.
  intros Hk. unfold loaded. simpl.
  rewrite map_app. simpl. rewrite dict_update_app.
  change ((k, json_load v) :: ?l) with ([(k, json_load v)] ++ l).
  rewrite dict_update_app, dict_get_update_other.
  - unfold dict_update at 1. simpl. rewrite dict_get_set.
    destruct (decide (k = k)); [reflexivity|congruence].
  - rewrite map_map. erewrite map_ext; [exact Hk|]. intros [k0 v0]. reflexivity.
Qed.

Lemma default_config_NoDup : NoDup (map fst default_config).
Proof.
  simpl. repeat constructor.
  - rewrite list_elem_of_singleton. discriminate.
  - apply not_elem_of_nil.
Qed.

(** Lines 142-143 change nothing: the result is the top-level update. *)
Lemma load_config_merge_eq (members : list (pystr * json)) :
  load_config (Object members) = dict_update default_config (loaded members).
Proof.
  unfold load_config.
  destruct (dict_get (loaded members) (lit "proxy_settings")) as [v|] eqn:Hps;
    [|reflexivity].
  destruct v as [| | | | |items|proxy]; try reflexivity.
  pose proof (loaded_object_NoDup _ _ _ Hps) as Hnd.
  pose proof (dict_update_NoDup (loaded members) default_config
                default_config_NoDup) as Hcfg.
  assert (Hget : dict_get (dict_update default_config (loaded members))
                   (lit "proxy_settings") = Some (JObj proxy)).
  { rewrite dict_get_update by apply loaded_NoDup. rewrite Hps. reflexivity. }
  unfold update_proxy_settings. rewrite Hget, (dict_update_self _ Hnd).
  apply dict_set_present; [exact Hcfg|]. apply dict_get_elem_of, Hget.
Qed.

(** X13. For a file that holds an object, the configuration returned is
    the defaults updated at the top level with the members of the file
    and nothing more: a key of the file has the value of the file, also
    [proxy_settings] as a whole, every other key its default.  The
    nested update of lines 142-143 never changes the result. *)
Theorem load_config_is_top_level_update (members : list (pystr * json))
    (k : pystr) :
  load_config (Object members) = dict_update default_config (loaded members)
  /\ dict_get (load_config (Object members)) k
     = match dict_get (loaded members) k with
       | Some v => Some v
       | None => dict_get default_config k
       end.
Proof.
  rewrite load_config_merge_eq. split; [reflexivity|].
  apply dict_get_update, loaded_NoDup.
Qed.

Lemma load_config_keeps_key (f : config_file) (k : pystr) :
  is_Some (dict_get default_config k) -> is_Some (dict_get (load_config f) k).
Proof.
  intros Hk. destruct f as [| |members]; try exact Hk.
  rewrite load_config_merge_eq, dict_get_update by apply loaded_NoDup.
  destruct (dict_get (loaded members) k); [eexists; reflexivity|exact Hk].
Qed.

(** X14. Whatever the file, the configuration returned has the keys
    [interval_minutes] and [proxy_settings], and no key twice. *)
Theorem load_config_keeps_default_keys (f : config_file) :
  is_Some (dict_get (load_config f) (lit "interval_minutes"))
  /\ is_Some (dict_get (load_config f) (lit "proxy_settings"))
  /\ NoDup (map fst (load_config f)).
Proof.
  split; [apply load_config_keeps_key; eexists; reflexivity|].
  split; [apply load_config_keeps_key; eexists; reflexivity|].
  destruct f as [| |members]; try apply default_config_NoDup.
  rewrite load_config_merge_eq. apply dict_update_NoDup, default_config_NoDup.
Qed.

(** X15. Key by key, for a file that holds an object: a key the file
    does not give has its default; a key the file gives has the value
    of its last member with this key, as [json.load] decodes it, of
    whatever type it is. *)
Theorem load_config_key_by_key (members : list (pystr * json)) (k : pystr) :
  (k ∉ map fst members ->
     dict_get (load_config (Object members)) k = dict_get default_config k)
  /\ (forall pre v post,
        members = pre ++ (k, v) :: post -> k ∉ map fst post ->
        dict_get (load_config (Object members)) k = Some (json_load v)).
Proof.
  rewrite load_config_merge_eq. split.
  - intros Hk. apply dict_get_update_other. intros H. apply Hk, loaded_keys, H.
  - intros pre v post -> Hk.
    rewrite dict_get_update by apply loaded_NoDup.
    rewrite (loaded_last_member pre post k v Hk). reflexivity.
Qed.

Lemma load_config_key_by_key_witness :
  (lit "proxy_settings" ∉ map fst odd_config ->
     dict_get (load_config (Object odd_config)) (lit "proxy_settings")
     = dict_get default_config (lit "proxy_settings"))
  /\ (forall pre v post,
        odd_config = pre ++ (lit "proxy_settings", v) :: post ->
        lit "proxy_settings" ∉ map fst post ->
        dict_get (load_config (Object odd_config)) (lit "proxy_settings")
        = Some (json_load v)).
Proof.
  exact (load_config_key_by_key odd_config (lit "proxy_settings")).
Defined.

(** X16. The interval [main_scheduler] hands to the scheduler is the
    entry [interval_minutes] of the configuration, which is always
    there, so the fallback of [config.get] is never used: it is 5 when
    the file is missing, unreadable or silent on the key, and otherwise
    the value the file gives, unchecked. *)
Theorem scheduler_interval_is_unchecked (f : config_file) :
  dict_get (load_config f) (lit "interval_minutes") = Some (scheduler_interval f)
  /\ (f = Missing \/ f = Undecodable -> scheduler_interval f = JInt 5)
  /\ (forall members,
        f = Object members -> lit "interval_minutes" ∉ map fst members ->
        scheduler_interval f = JInt 5)
  /\ (forall pre v post,
        f = Object (pre ++ (lit "interval_minutes", v) :: post) ->
        lit "interval_minutes" ∉ map fst post ->
        scheduler_interval f = json_load v).
Proof.
  unfold scheduler_interval. split; [|split; [|split]].
  - destruct (load_config_keeps_key f (lit "interval_minutes")) as [v ->];
      [eexists|]; reflexivity.
  - intros [-> | ->]; reflexivity.
  - intros members -> Hk.
    rewrite (load_config_top_level_default members _ Hk). reflexivity.
  - intros pre v post -> Hk.
    rewrite load_config_merge_eq, dict_get_update by apply loaded_NoDup.
    rewrite (loaded_last_member pre post _ v Hk). reflexivity.
Qed.

Lemma scheduler_interval_is_unchecked_witness :
  dict_get (load_config (Object odd_config)) (lit "interval_minutes")
  = Some (JInt (-2))
  /\ (Object odd_config = Missing \/ Object odd_config = Undecodable ->
      JInt (-2) = JInt 5)
  /\ (forall members,
        Object odd_config = Object members ->
        lit "interval_minutes" ∉ map fst members ->
        JInt (-2) = JInt 5)
  /\ (forall pre v post,
        Object odd_config = Object (pre ++ (lit "interval_minutes", v) :: post) ->
        lit "interval_minutes" ∉ map fst post ->
        JInt (-2) = json_load v).
Proof.
  exact (scheduler_interval_is_unchecked (Object odd_config)).
Defined.

(** ** The label of a run *)

Lemma digit_inj (a b : Z) : digit a = digit b -> a mod 10 = b mod 10.
Proof.
  unfold digit. intros H.
  pose proof (Z.mod_pos_bound a 10 ltac:(lia)).
  pose proof (Z.mod_pos_bound b 10 ltac:(lia)).
  apply Z2N.inj in H; lia.
Qed.

Lemma two_digits_inj (a b : Z) :
  0 <= a <= 99 -> 0 <= b <= 99 -> two_digits a = two_digits b -> a = b.
Proof.
  unfold two_digits. intros Ha Hb [= H1 H2].
  apply digit_inj in H1, H2.
  Z.to_euclidean_division_equations. lia.
Qed.

Lemma four_digits_inj (a b : Z) :
  0 <= a <= 9999 -> 0 <= b <= 9999 -> four_digits a = four_digits b -> a = b.
Proof.
  unfold four_digits. intros Ha Hb [= H1 H2 H3 H4].
  apply digit_inj in H1, H2, H3, H4.
  Z.to_euclidean_division_equations. lia.
Qed.

(** X17. The label determines the time of the run to the second: two
    runs whose labels are equal took the same time stamp, so runs in
    different seconds have different keys. *)
Theorem date_label_determines_time (t1 t2 : datetime) :
  valid_datetime t1 -> valid_datetime t2 ->
  date_label t1 = date_label t2 -> t1 = t2.
Proof.
  intros (Hy1 & Hm1 & Hd1 & Hh1 & Hi1 & Hs1) (Hy2 & Hm2 & Hd2 & Hh2 & Hi2 & Hs2) H.
  unfold date_label in H. apply app_inv_head in H.
  unfold strftime in H.
  change (lit "-") with [45%N] in H. change (lit " ") with [32%N] in H.
  change (lit ":") with [58%N] in H.
  destruct t1 as [y1 m1 d1 h1 i1 s1], t2 as [y2 m2 d2 h2 i2 s2]. simpl in *.
  injection H as Y1 Y2 Y3 Y4 M1 M2 D1 D2 H1 H2 I1 I2 S1 S2.
  assert (y1 = y2).
  { apply four_digits_inj; [lia|lia|]. unfold four_digits. congruence. }
  assert (m1 = m2).
  { apply two_digits_inj; [lia|lia|]. unfold two_digits. congruence. }
  assert (d1 = d2).
  { apply two_digits_inj; [lia|lia|]. unfold two_digits. congruence. }
  assert (h1 = h2).
  { apply two_digits_inj; [lia|lia|]. unfold two_digits. congruence. }
  assert (i1 = i2).
  { apply two_digits_inj; [lia|lia|]. unfold two_digits. congruence. }
  assert (s1 = s2).
  { apply two_digits_inj; [lia|lia|]. unfold two_digits. congruence. }
  congruence.
Qed.

Lemma date_label_determines_time_witness :
  sample_now
  = {| year := 2000 + 25; month := 2 * 3; day := 3 * 3;
       hour := 2 * 7; minute := 10 - 5; second := 0 * 60 |}.
Proof.
  apply (date_label_determines_time sample_now
           {| year := 2000 + 25; month := 2 * 3; day := 3 * 3;
              hour := 2 * 7; minute := 10 - 5; second := 0 * 60 |}).
  - unfold valid_datetime. simpl. lia.
  - unfold valid_datetime. simpl. lia.
  - reflexivity.
Defined.
